(** * update_politicians_images.py: matching politician records to portraits

    A shallow embedding of [cleanup-files/update_politicians_images.py].

    The script loads a JSON document, lists a directory of images, builds a
    dictionary from normalised image names to file names, and walks over the
    records: every record that matches an image (by name, by alias, or by a
    substring fallback) gets its ['image'] entry set; the others are reported
    on the console.  The document is written back at the end.

    Conventions of the model:
    - a Python [str] is a [string]; a character is an [ascii].  Every string
      operation of the script acts character by character on the four ASCII
      characters double quote, space, hyphen and apostrophe, or compares
      characters for equality;
    - a Python [dict] is an association list in insertion order, looked up
      and updated at the first entry with the key (a dict built by
      [json.load] or by a comprehension has no second one);
    - an exception is a value [Raise e] of the result type; the script
      catches none, so an exception ends the run before the file is written.
      The exceptions of the model are the two that the loop raises on a
      document of the wrong shape; [print] and [json.dump] failing to
      encode a text are not part of it;
    - the file system is explicit: the directory listing and the parsed
      document are the inputs of [run], the document written back and the
      console lines are its outputs. *)

From Stdlib Require Import String Ascii List Bool Arith Lia.
From Stdlib Require Import Numbers.DecimalString.
From Stdlib Require Import Sorting.Permutation.
Import ListNotations.
Local Open Scope string_scope.
Local Open Scope list_scope.
Local Open Scope nat_scope.

(** ** Characters and strings *)

Module Str.

(** The double quote character, code point 34. *)
Definition dquote : ascii := "034"%char.

(** The character class [[-' ]] of the script's regular expressions. *)
Definition is_sep (c : ascii) : bool :=
  (c =? "-")%char || (c =? "'")%char || (c =? " ")%char.

(** [s.replace(old, '')] for a one-character [old]. *)
Fixpoint remove_char (old : ascii) (s : string) : string :=
  match s with
  | EmptyString => EmptyString
  | String c s' =>
      if (c =? old)%char then remove_char old s'
      else String c (remove_char old s')
  end.

(** [re.sub(r"[-' ]", '_', s)]: every character of the class becomes an
    underscore. *)
Fixpoint sub_seps (s : string) : string :=
  match s with
  | EmptyString => EmptyString
  | String c s' => String (if is_sep c then "_"%char else c) (sub_seps s')
  end.

(** [re.split(r"[-' ]", s)]: the pieces between the characters of the
    class, empty pieces included; never an empty list. *)
Fixpoint re_split (s : string) : list string :=
  match s with
  | EmptyString => [EmptyString]
  | String c s' =>
      if is_sep c then EmptyString :: re_split s'
      else match re_split s' with
           | p :: ps => String c p :: ps
           | [] => [String c EmptyString]
           end
  end.

(** [c in s] for a character. *)
Fixpoint occurs (c : ascii) (s : string) : bool :=
  match s with
  | EmptyString => false
  | String d s' => (d =? c)%char || occurs c s'
  end.

(** Every character of [s] is of the class [[-' ]]. *)
Fixpoint all_seps (s : string) : bool :=
  match s with
  | EmptyString => true
  | String c s' => is_sep c && all_seps s'
  end.

(** Truth value of a string: non-empty. *)
Definition truthy (s : string) : bool :=
  match s with EmptyString => false | String _ _ => true end.

(** [p in k] for strings: [p] occurs in [k] as a contiguous block. *)
Fixpoint str_in (p k : string) : bool :=
  prefix p k ||
  match k with
  | EmptyString => false
  | String _ k' => str_in p k'
  end.

(** The same, as a proposition. *)
Definition substring_of (p k : string) : Prop :=
  exists pre post, k = (pre ++ p ++ post)%string.

(** [c.lower()] on the ASCII letters; the other characters matter to the
    script only through the test [endswith('.png')], which they fail
    lowered or not. *)
Definition lower_char (c : ascii) : ascii :=
  let n := nat_of_ascii c in
  if (65 <=? n) && (n <=? 90) then ascii_of_nat (n + 32) else c.

Fixpoint lower (s : string) : string :=
  match s with
  | EmptyString => EmptyString
  | String c s' => String (lower_char c) (lower s')
  end.

(** [s.endswith(suf)]. *)
Definition endswith (s suf : string) : bool :=
  (String.length suf <=? String.length s) &&
  (substring (String.length s - String.length suf) (String.length suf) s
   =? suf)%string.

(** [s.rfind(c)] for a character: the index of its last occurrence. *)
Fixpoint rfind (c : ascii) (s : string) : option nat :=
  match s with
  | EmptyString => None
  | String d s' =>
      match rfind c s' with
      | Some i => Some (S i)
      | None => if (d =? c)%char then Some 0 else None
      end
  end.

(** Some character of [s] differs from [c]. *)
Fixpoint has_other (c : ascii) (s : string) : bool :=
  match s with
  | EmptyString => false
  | String d s' => negb (d =? c)%char || has_other c s'
  end.

(** [os.path.splitext(p)] of [posixpath]: the extension starts at the last
    dot of the last path component, unless only dots come before it in
    that component. *)
Definition splitext (p : string) : string * string :=
  match rfind "." p with
  | None => (p, EmptyString)
  | Some dotIndex =>
      let filenameIndex :=
        match rfind "/" p with Some sepIndex => S sepIndex | None => 0 end in
      if (filenameIndex <=? dotIndex) &&
         has_other "." (substring filenameIndex (dotIndex - filenameIndex) p)
      then (substring 0 dotIndex p,
            substring dotIndex (String.length p - dotIndex) p)
      else (p, EmptyString)
  end.

(** [str(n)] for a natural number. *)
Definition of_nat (n : nat) : string :=
  NilZero.string_of_uint (Nat.to_uint n).

End Str.

(** ** Dictionaries in insertion order *)

Module Dict.

Section WithValue.
Context {V : Type}.

Definition t := list (string * V).

(** [d.get(k)]: the value at [k], if any. *)
Fixpoint get (d : t) (k : string) : option V :=
  match d with
  | [] => None
  | (k', v) :: d' => if (k' =? k)%string then Some v else get d' k
  end.

(** [d[k] = v]: an existing key keeps its place, a new key goes last. *)
Fixpoint set (d : t) (k : string) (v : V) : t :=
  match d with
  | [] => [(k, v)]
  | (k', v') :: d' =>
      if (k' =? k)%string then (k, v) :: d' else (k', v') :: set d' k v
  end.

(** [{key(x): val(x) for x in xs}]: the entries are stored one by one. *)
Definition comprehension {X : Type} (key : X -> string) (val : X -> V)
    (xs : list X) : t :=
  fold_left (fun d x => set d (key x) (val x)) xs [].

Definition keys (d : t) : list string := map fst d.

End WithValue.

Arguments t : clear implicits.

End Dict.

(** ** Values and exceptions *)

Local Set Warnings "-register-all".

(** What [json.load] returns: [None], [bool], numbers (kept as their
    literal: the script never computes with one), [str], [list], [dict]. *)
Inductive json : Type :=
| JNull
| JBool (b : bool)
| JNum (literal : string)
| JStr (s : string)
| JArr (items : list json)
| JObj (fields : list (string * json)).

(** The two exceptions the loop can raise on a document of the wrong
    shape. *)
Inductive exn : Type := AttributeError | TypeError.

Inductive result (A : Type) : Type :=
| Ok (a : A)
| Raise (e : exn).

Arguments Ok {A} a.
Arguments Raise {A} e.

Definition bind {A B : Type} (m : result A) (f : A -> result B) : result B :=
  match m with
  | Ok a => f a
  | Raise e => Raise e
  end.

Notation "x <- m ;; k" := (bind m (fun x => k))
  (at level 61, m at next level, right associativity).
Notation "' p <- m ;; k" := (bind m (fun x => match x with p => k end))
  (at level 61, p pattern, m at next level, right associativity).

(** [v.get(k, default)]: only a [dict] has the method. *)
Definition py_get (v : json) (k : string) (default : json) : result json :=
  match v with
  | JObj d =>
      Ok (match Dict.get d k with Some x => x | None => default end)
  | _ => Raise AttributeError
  end.

(** [v[k] = x]: item assignment with a [str] key, on the values of a parsed
    document only a [dict] takes it. *)
Definition py_setitem (v : json) (k : string) (x : json) : result json :=
  match v with
  | JObj d => Ok (JObj (Dict.set d k x))
  | _ => Raise TypeError
  end.

(** [for x in v]: a [list] yields its items, a [dict] its keys, a [str] its
    characters; [None], booleans and numbers are not iterable. *)
Definition py_iter (v : json) : result (list json) :=
  match v with
  | JArr l => Ok l
  | JObj d => Ok (map JStr (Dict.keys d))
  | JStr s =>
      Ok (map (fun c => JStr (String c EmptyString)) (list_ascii_of_string s))
  | _ => Raise TypeError
  end.

(** ** The script *)

(** [[f for f in os.listdir(images_dir) if f.lower().endswith('.png')]] *)
Definition image_files (listing : list string) : list string :=
  filter (fun f => Str.endswith (Str.lower f) ".png") listing.

(** The key of a file in [norm_map]:
    [re.sub(r"[-' ]", '_', os.path.splitext(f)[0])]. *)
Definition file_key (f : string) : string :=
  Str.sub_seps (fst (Str.splitext f)).

(** [norm_map = {re.sub(...): f for f in image_files}] *)
Definition norm_map (listing : list string) : Dict.t string :=
  Dict.comprehension file_key (fun f => f) (image_files listing).

(** [def normalize(s)] on a [str]. *)
Definition normalize (s : string) : string :=
  Str.sub_seps (Str.remove_char Str.dquote s).

(** [normalize(v)] on any value: [v.replace] exists on a [str] only. *)
Definition call_normalize (v : json) : result string :=
  match v with
  | JStr s => Ok (normalize s)
  | _ => Raise AttributeError
  end.

(** The loop over the aliases, left by [break] at the first one whose
    normalisation is a key. *)
Fixpoint alias_loop (nm : Dict.t string) (aliases : list json)
    : result (option string) :=
  match aliases with
  | [] => Ok None
  | alias :: rest =>
      norm_alias <- call_normalize alias ;;
      match Dict.get nm norm_alias with
      | Some f => Ok (Some f)
      | None => alias_loop nm rest
      end
  end.

(** [[p for p in re.split(r"[-' ]", name) if p]] *)
Definition name_parts (name : string) : list string :=
  filter Str.truthy (Str.re_split name).

(** [all(normalize(p) in key for p in parts)] *)
Definition all_parts_in (parts : list string) (key : string) : bool :=
  forallb (fun p => Str.str_in (normalize p) key) parts.

(** The fallback loop over [norm_map.items()], left by [break] at the
    first key that holds every part. *)
Definition fallback (nm : Dict.t string) (name : string) : option string :=
  let parts := name_parts name in
  match find (fun kv => all_parts_in parts (fst kv)) nm with
  | Some (_, filename) => Some filename
  | None => None
  end.

(** The first half of the loop body: [name] and [img] of an entry.  The
    test [norm_name in norm_map] and the lookup [norm_map[norm_name]] are
    one [Dict.get]; so are those on [norm_alias]. *)
Definition find_image (nm : Dict.t string) (entry : json)
    : result (string * option string) :=
  name_v <- py_get entry "name" (JStr "") ;;
  norm_name <- call_normalize name_v ;;
  match name_v with
  | JStr name =>
      img <- match Dict.get nm norm_name with
             | Some f => Ok (Some f)
             | None =>
                 aliases <- py_get entry "aliases" (JArr []) ;;
                 l <- py_iter aliases ;;
                 alias_loop nm l
             end ;;
      Ok (name, match img with
                | None => fallback nm name
                | Some _ => img
                end)
  | _ => Raise AttributeError
  end.

(** The line [print] writes for a record without image. *)
Definition no_image_line (name : string) : string :=
  ("No image found for " ++ name)%string.

(** [if img:] *)
Definition img_truthy (img : option string) : bool :=
  match img with
  | Some f => Str.truthy f
  | None => false
  end.

(** The loop's variables besides the records: the counter and the lines
    printed so far. *)
Record state : Type := mkState { count : nat; stdout : list string }.

(** One turn of [for entry in data]. *)
Definition loop_body (nm : Dict.t string) (entry : json) (st : state)
    : result (json * state) :=
  '(name, img) <- find_image nm entry ;;
  match img with
  | Some f =>
      if Str.truthy f then
        entry' <- py_setitem entry "image" (JStr f) ;;
        Ok (entry', mkState (count st + 1) (stdout st))
      else
        Ok (entry, mkState (count st) (stdout st ++ [no_image_line name]))
  | None =>
      Ok (entry, mkState (count st) (stdout st ++ [no_image_line name]))
  end.

Fixpoint main_loop (nm : Dict.t string) (entries : list json) (st : state)
    : result (list json * state) :=
  match entries with
  | [] => Ok ([], st)
  | entry :: rest =>
      '(entry', st') <- loop_body nm entry st ;;
      '(rest', st'') <- main_loop nm rest st' ;;
      Ok (entry' :: rest', st'')
  end.

(** What a run leaves behind: the document written to the file and the
    lines on the console. *)
Record output : Type := mkOutput { written : json; console : list string }.

(** The object [data] after the loop: a list holds the updated records;
    the keys of a dict and the characters of a string are not part of it. *)
Definition data_after (data : json) (entries' : list json) : json :=
  match data with
  | JArr _ => JArr entries'
  | _ => data
  end.

Definition summary (n : nat) : string :=
  ("Updated " ++ Str.of_nat n ++ " entries")%string.

(** The whole script, from the directory listing and the parsed file. *)
Definition run (listing : list string) (data : json) : result output :=
  entries <- py_iter data ;;
  '(entries', st) <- main_loop (norm_map listing) entries (mkState 0 []) ;;
  Ok (mkOutput (data_after data entries') (stdout st ++ [summary (count st)])).

(** ** Reading a run

    The loop body decides three things for an entry from [find_image]
    alone; they are named here so that the theorems can speak of them. *)

(** The field [k] of a record. *)
Definition field (e : json) (k : string) : option json :=
  match e with
  | JObj d => Dict.get d k
  | _ => None
  end.

(** The record after [entry['image'] = f]. *)
Definition with_image (e : json) (f : string) : json :=
  match e with
  | JObj d => JObj (Dict.set d "image" (JStr f))
  | _ => e
  end.

(** The file name the loop body stores in the record, if it stores one:
    the branch [if img:] is taken. *)
Definition assigned (nm : Dict.t string) (e : json) : option string :=
  match find_image nm e with
  | Ok (_, Some f) => if Str.truthy f then Some f else None
  | _ => None
  end.

Definition is_assigned (nm : Dict.t string) (e : json) : bool :=
  match assigned nm e with Some _ => true | None => false end.

(** The record as the loop body leaves it. *)
Definition updated (nm : Dict.t string) (e : json) : json :=
  match assigned nm e with
  | Some f => with_image e f
  | None => e
  end.

(** The line the loop body prints for the record, if it prints one: the
    branch [else:] is taken. *)
Definition diagnostic (nm : Dict.t string) (e : json) : list string :=
  match find_image nm e with
  | Ok (name, img) =>
      if img_truthy img then []
      else [no_image_line name]
  | Raise _ => []
  end.

(** The number of records of a list in which the loop stores a file name. *)
Definition set_count (nm : Dict.t string) (es : list json) : nat :=
  List.length (filter (is_assigned nm) es).

(** The loop body stores [f] in the record and counts it, printing
    nothing. *)
Definition stores (nm : Dict.t string) (e : json) (f : string) (st : state)
    : Prop :=
  loop_body nm e st =
  Ok (with_image e f, mkState (count st + 1) (stdout st)).

(** The loop body leaves the record and the count alone and prints the
    line that names the record. *)
Definition reports (nm : Dict.t string) (e : json) (name : string)
    (st : state) : Prop :=
  loop_body nm e st =
  Ok (e, mkState (count st) (stdout st ++ [no_image_line name])).

(** The key [k] holds every normalised part of the name. *)
Definition holds_all_parts (name k : string) : Prop :=
  Forall (fun p => Str.substring_of (normalize p) k) (name_parts name).

(** The first half of the loop body raises nothing on the record. *)
Definition find_ok (nm : Dict.t string) (e : json) : Prop :=
  exists r, find_image nm e = Ok r.

(** The first two stages find nothing for the record. *)
Definition no_exact_match (nm : Dict.t string) (e : json) (name : string)
    : Prop :=
  py_get e "name" (JStr "") = Ok (JStr name) /\
  Dict.get nm (normalize name) = None /\
  exists aliases l,
    py_get e "aliases" (JArr []) = Ok aliases /\
    py_iter aliases = Ok l /\
    alias_loop nm l = Ok None.

(** A record of the shape the specification gives: an object whose
    [name], if present, is a string and whose [aliases], if present, is a
    list of strings. *)
Definition is_str (v : json) : bool :=
  match v with JStr _ => true | _ => false end.

Definition wf_record (e : json) : bool :=
  match e with
  | JObj d =>
      match Dict.get d "name" with
      | Some v => is_str v
      | None => true
      end &&
      match Dict.get d "aliases" with
      | Some (JArr l) => forallb is_str l
      | Some _ => false
      | None => true
      end
  | _ => false
  end.

(** Four records, one for each way the match can end.  The aliases of the
    first and the last alias of the second are not even strings. *)
Definition rec_by_name : json :=
  JObj [("name", JStr "John Smith"); ("aliases", JNull)].

Definition rec_by_alias : json :=
  JObj [("name", JStr "Jane O'Doe");
        ("aliases", JArr [JStr "J. Doe"; JStr "Jane Doe"; JNum "7"])].

Definition rec_by_parts : json := JObj [("name", JStr "Smith John")].

Definition rec_unknown : json := JObj [("name", JStr "Unknown Person")].

(** A file whose name has a double quote in it: the letter a, a double
    quote, then b.png. *)
Definition quoted_file : string := String "a" (String Str.dquote "b.png").

(** Two files that differ only by a separator, and a record named as the
    first of them. *)
Definition twin_listing : list string := ["A B.png"; "A-B.png"].

Definition twin_data : json := JArr [JObj [("name", JStr "A B")]].

(** A record with two aliases that both have an image. *)
Definition two_alias_listing : list string := ["A.png"; "B.png"].

Definition two_alias_data : json :=
  JArr [JObj [("name", JStr "X"); ("aliases", JArr [JStr "A"; JStr "B"])]].

(** Two files with different keys that both hold the name of a record,
    listed in one order and in the other. *)
Definition jones_listing : list string := ["Tom_Jones.png"; "Bob_Jones.png"].

Definition jones_listing_reversed : list string :=
  ["Bob_Jones.png"; "Tom_Jones.png"].

Definition jones_data : json := JArr [JObj [("name", JStr "Jones")]].

Definition jones_after_first_run : json :=
  JArr [JObj [("name", JStr "Jones"); ("image", JStr "Tom_Jones.png")]].

Definition jones_after_second_run : json :=
  JArr [JObj [("name", JStr "Jones"); ("image", JStr "Bob_Jones.png")]].

(** The example of the specification and what the run makes of it. *)
Definition example_listing : list string := ["John_Smith.png"; "Jane-Doe.png"].

Definition example_records : list json :=
  [ JObj [("name", JStr "John Smith")];
    JObj [("name", JStr "Jane O'Doe"); ("aliases", JArr [JStr "Jane Doe"])];
    JObj [("name", JStr "Unknown Person")] ].

Definition example_data : json := JArr example_records.

Definition example_output : output :=
  mkOutput
    (JArr [ JObj [("name", JStr "John Smith");
                  ("image", JStr "John_Smith.png")];
            JObj [("name", JStr "Jane O'Doe");
                  ("aliases", JArr [JStr "Jane Doe"]);
                  ("image", JStr "Jane-Doe.png")];
            JObj [("name", JStr "Unknown Person")] ])
    ["No image found for Unknown Person"; "Updated 2 entries"].

(** ** Strings: lemmas *)

Module StrFacts.
Import Str.

Lemma sub_seps_length (s : string) :
  String.length (sub_seps s) = String.length s.
Proof. induction s as [|c s IH]; simpl; congruence. Qed.

Lemma remove_char_length (c : ascii) (s : string) :
  String.length (remove_char c s) <= String.length s.
Proof.
  induction s as [|d s IH]; simpl; [lia|].
  destruct (d =? c)%char; simpl; lia.
Qed.

Lemma remove_char_absent (c : ascii) (s : string) :
  occurs c s = false -> remove_char c s = s.
Proof.
  induction s as [|d s IH]; simpl; [reflexivity|].
  destruct (d =? c)%char; simpl; [discriminate|].
  intros H. now rewrite IH.
Qed.

Lemma remove_char_present (c : ascii) (s : string) :
  occurs c s = true -> String.length (remove_char c s) < String.length s.
Proof.
  induction s as [|d s IH]; simpl; [discriminate|].
  destruct (d =? c)%char; simpl.
  - intros _. pose proof (remove_char_length c s). lia.
  - intros H. apply IH in H. lia.
Qed.

Lemma prefix_app (p k : string) :
  prefix p k = true <-> exists post, k = (p ++ post)%string.
Proof.
  revert k. induction p as [|c p IH]; intros k.
  - destruct k; simpl; split; eauto.
  - destruct k as [|d k]; simpl.
    + split; [discriminate|]. intros [post H]. discriminate.
    + destruct (Ascii.ascii_dec c d) as [->|Hne].
      * rewrite IH. split; intros [post H]; exists post; congruence.
      * split; [discriminate|]. intros [post H]. congruence.
Qed.

(** [str_in] decides the substring relation. *)
Lemma str_in_spec (p k : string) :
  str_in p k = true <-> substring_of p k.
Proof.
  unfold substring_of. induction k as [|d k IH].
  - cbn [str_in]. rewrite orb_false_r, prefix_app. split.
    + intros [post H]. now exists EmptyString, post.
    + intros [[|c pre] [post H]]; [now exists post|discriminate].
  - cbn [str_in]. rewrite orb_true_iff, prefix_app, IH. split.
    + intros [[post H]|[pre [post H]]].
      * now exists EmptyString, post.
      * exists (String d pre), post. simpl. congruence.
    + intros [[|c pre] [post H]].
      * left. now exists post.
      * right. exists pre, post. simpl in H. congruence.
Qed.

Lemma re_split_nonempty (s : string) : re_split s <> [].
Proof.
  induction s as [|c s IH]; simpl; [discriminate|].
  destruct (is_sep c); [discriminate|].
  destruct (re_split s); discriminate.
Qed.

(** The split leaves no non-empty piece exactly when the string is made of
    separators only (the empty string included). *)
Lemma no_parts_iff (s : string) :
  filter truthy (re_split s) = [] <-> all_seps s = true.
Proof.
  induction s as [|c s IH]; simpl.
  - split; reflexivity.
  - destruct (is_sep c); simpl.
    + exact IH.
    + pose proof (re_split_nonempty s) as Hne.
      destruct (re_split s) as [|p ps]; [contradiction|].
      simpl. split; discriminate.
Qed.

(** A file that passes the [.png] filter has a non-empty name. *)
Lemma endswith_png_truthy (f : string) :
  endswith (lower f) ".png" = true -> truthy f = true.
Proof. destruct f; [discriminate|reflexivity]. Qed.

End StrFacts.

(** ** Dictionaries: lemmas *)

Module DictFacts.
Import Dict.

Section WithValue.
Context {V : Type}.
Implicit Types (d : Dict.t V) (k : string) (v : V).

Lemma get_set_same d k v : get (set d k v) k = Some v.
Proof.
  induction d as [|[k' v'] d IH]; simpl.
  - now rewrite String.eqb_refl.
  - destruct (k' =? k)%string eqn:E; simpl.
    + now rewrite String.eqb_refl.
    + now rewrite E.
Qed.

Lemma get_set_other d k k' v : k <> k' -> get (set d k v) k' = get d k'.
Proof.
  intros Hne. induction d as [|[k0 v0] d IH]; simpl.
  - apply String.eqb_neq in Hne. now rewrite Hne.
  - destruct (k0 =? k)%string eqn:E; simpl.
    + apply String.eqb_eq in E. subst k0.
      apply String.eqb_neq in Hne. now rewrite Hne.
    + now rewrite IH.
Qed.

Lemma set_set d k v v' : set (set d k v) k v' = set d k v'.
Proof.
  induction d as [|[k0 v0] d IH]; simpl.
  - now rewrite String.eqb_refl.
  - destruct (k0 =? k)%string eqn:E; simpl.
    + now rewrite String.eqb_refl.
    + now rewrite E, IH.
Qed.

Lemma get_in d k v : get d k = Some v -> In (k, v) d.
Proof.
  induction d as [|[k' v'] d IH]; simpl; [discriminate|].
  destruct (k' =? k)%string eqn:E.
  - apply String.eqb_eq in E. intros [= ->]. left. now subst.
  - intros H. right. auto.
Qed.

(** A comprehension maps a key to the value of the last element that
    produced the key. *)
Lemma get_comprehension {X : Type} (key : X -> string) (val : X -> V)
    (xs : list X) k :
  get (comprehension key val xs) k =
  option_map val (find (fun x => (key x =? k)%string) (rev xs)).
Proof.
  unfold comprehension. induction xs as [|x xs IH] using rev_ind.
  - reflexivity.
  - rewrite fold_left_app, rev_app_distr. simpl.
    destruct (key x =? k)%string eqn:E.
    + apply String.eqb_eq in E. subst k. apply get_set_same.
    + apply String.eqb_neq in E. rewrite get_set_other by exact E.
      exact IH.
Qed.

Lemma in_set d k v k' v' :
  In (k', v') (set d k v) -> In (k', v') d \/ (k' = k /\ v' = v).
Proof.
  induction d as [|[k0 v0] d IH]; simpl.
  - intros [[= <- <-]|[]]. now right.
  - destruct (k0 =? k)%string; simpl.
    + intros [[= <- <-]|H]; [now right|now left; right].
    + intros [H|H]; [now left; left|].
      destruct (IH H) as [H'|H']; [now left; right|now right].
Qed.

(** Every entry of a comprehension comes from an element of the list. *)
Lemma comprehension_values {X : Type} (key : X -> string) (val : X -> V)
    (xs : list X) k v :
  In (k, v) (comprehension key val xs) ->
  exists x, In x xs /\ key x = k /\ val x = v.
Proof.
  unfold comprehension. induction xs as [|x xs IH] using rev_ind.
  - intros [].
  - rewrite fold_left_app. simpl. intros H.
    apply in_set in H. destruct H as [H|[Hk Hv]].
    + destruct (IH H) as (y & Hy & Hk & Hv).
      exists y. rewrite in_app_iff. auto.
    + exists x. rewrite in_app_iff. simpl. auto.
Qed.

End WithValue.

End DictFacts.

(** ** The loop: lemmas *)

Module LoopFacts.
Import Dict DictFacts.

Lemma find_image_obj nm e r : find_image nm e = Ok r -> exists d, e = JObj d.
Proof. destruct e; try discriminate. eauto. Qed.

(** Storing the image leaves what [find_image] reads untouched. *)
Lemma find_image_with_image nm e f :
  find_image nm (with_image e f) = find_image nm e.
Proof.
  destruct e as [| | | | |d]; try reflexivity.
  unfold find_image, with_image, py_get.
  rewrite !get_set_other by discriminate. reflexivity.
Qed.

Lemma find_image_updated nm e : find_image nm (updated nm e) = find_image nm e.
Proof.
  unfold updated. destruct (assigned nm e); [|reflexivity].
  apply find_image_with_image.
Qed.

Lemma assigned_updated nm e : assigned nm (updated nm e) = assigned nm e.
Proof. unfold assigned. now rewrite find_image_updated. Qed.

Lemma diagnostic_updated nm e : diagnostic nm (updated nm e) = diagnostic nm e.
Proof. unfold diagnostic. now rewrite find_image_updated. Qed.

Lemma with_image_twice e f : with_image (with_image e f) f = with_image e f.
Proof. destruct e; try reflexivity. simpl. now rewrite set_set. Qed.

Lemma updated_updated nm e : updated nm (updated nm e) = updated nm e.
Proof.
  unfold updated at 1. rewrite assigned_updated.
  unfold updated. destruct (assigned nm e); [|reflexivity].
  apply with_image_twice.
Qed.

(** The loop body in terms of [find_image]: it raises only if
    [find_image] does, and otherwise its three effects are [updated],
    [is_assigned] and [diagnostic]. *)
Lemma loop_body_spec nm e st :
  loop_body nm e st =
  match find_image nm e with
  | Ok _ =>
      Ok (updated nm e,
          mkState (count st + (if is_assigned nm e then 1 else 0))
                  (stdout st ++ diagnostic nm e))
  | Raise x => Raise x
  end.
Proof.
  unfold loop_body, updated, is_assigned, diagnostic, assigned.
  destruct (find_image nm e) as [[name img]|x] eqn:E; [|reflexivity].
  destruct (find_image_obj _ _ _ E) as [d ->]. simpl.
  destruct img as [f|]; simpl.
  - destruct (Str.truthy f); simpl.
    + now rewrite app_nil_r.
    + now rewrite Nat.add_0_r.
  - now rewrite Nat.add_0_r.
Qed.

(** The loop on records that raise nothing. *)
Lemma main_loop_spec nm es st :
  Forall (find_ok nm) es ->
  main_loop nm es st =
  Ok (map (updated nm) es,
      mkState (count st + set_count nm es)
              (stdout st ++ flat_map (diagnostic nm) es)).
Proof.
  intros H. revert st. induction H as [|e es [r He] _ IH]; intros st.
  - simpl. unfold set_count. simpl.
    rewrite Nat.add_0_r, app_nil_r. now destruct st.
  - cbn [main_loop]. rewrite loop_body_spec, He. cbn [bind].
    rewrite IH. cbn [bind count stdout map flat_map].
    unfold set_count. cbn [filter].
    destruct (is_assigned nm e); cbn [List.length];
      rewrite <- app_assoc; do 3 f_equal; lia.
Qed.

(** Conversely the loop ends normally only if no record raises. *)
Lemma main_loop_ok nm es st r :
  main_loop nm es st = Ok r -> Forall (find_ok nm) es.
Proof.
  revert st r. induction es as [|e es IH]; intros st r H; [constructor|].
  cbn [main_loop] in H. rewrite loop_body_spec in H.
  destruct (find_image nm e) as [r0|x] eqn:E; [|discriminate].
  cbn [bind] in H.
  destruct (main_loop nm es _) as [[es' st']|x] eqn:E'; [|discriminate].
  constructor; [now exists r0|eauto].
Qed.

End LoopFacts.

(** ** The whole run: lemmas *)

Module RunFacts.
Import Dict DictFacts StrFacts LoopFacts.

Lemma find_skip {A : Type} (p : A -> bool) (l l' : list A) :
  Forall (fun x => p x = false) l -> find p (l ++ l')%list = find p l'.
Proof.
  induction 1 as [|x l Hx _ IH]; simpl; [reflexivity|]. now rewrite Hx.
Qed.

(** The index maps the key of a file to that file, unless a file listed
    later has the same key. *)
Lemma norm_map_last listing before f after :
  image_files listing = (before ++ f :: after)%list ->
  Forall (fun g => file_key g <> file_key f) after ->
  Dict.get (norm_map listing) (file_key f) = Some f.
Proof.
  intros Hl Hafter. unfold norm_map.
  rewrite get_comprehension, Hl, rev_app_distr. simpl.
  rewrite <- app_assoc, find_skip.
  - simpl. now rewrite String.eqb_refl.
  - apply Forall_rev. eapply Forall_impl; [|exact Hafter].
    intros g Hg. now apply String.eqb_neq.
Qed.

(** A double quote in the stem stays in the key, so the key is longer
    than the normalised stem. *)
Lemma file_key_with_quote f :
  Str.occurs Str.dquote (fst (Str.splitext f)) = true ->
  file_key f <> normalize (fst (Str.splitext f)).
Proof.
  intros H Heq. apply (f_equal String.length) in Heq.
  unfold file_key, normalize in Heq. rewrite !sub_seps_length in Heq.
  apply (remove_char_present Str.dquote) in H. lia.
Qed.

(** Every file name in the index passed the filter, so it is not empty. *)
Lemma norm_map_values listing k f :
  In (k, f) (norm_map listing) ->
  In f (image_files listing) /\ file_key f = k /\ Str.truthy f = true.
Proof.
  intros H. apply comprehension_values in H.
  destruct H as (x & Hx & Hk & <-). repeat split; trivial.
  unfold image_files in Hx. apply filter_In in Hx.
  now apply endswith_png_truthy.
Qed.

Lemma alias_loop_in nm l f :
  alias_loop nm l = Ok (Some f) -> exists k, In (k, f) nm.
Proof.
  induction l as [|a l IH]; simpl; [discriminate|].
  destruct a; simpl; try discriminate.
  destruct (Dict.get nm (normalize s)) as [g|] eqn:E; [|exact IH].
  intros [= ->]. eauto using get_in.
Qed.

Lemma fallback_in nm name f :
  fallback nm name = Some f -> exists k, In (k, f) nm.
Proof.
  unfold fallback.
  destruct (find _ nm) as [[k g]|] eqn:E; [|discriminate].
  intros [= ->]. apply find_some in E. exists k. tauto.
Qed.

(** Whatever stage finds the image, it is a value of the index. *)
Lemma find_image_in nm e name f :
  find_image nm e = Ok (name, Some f) -> exists k, In (k, f) nm.
Proof.
  destruct e as [| | | | |d]; try discriminate.
  unfold find_image, py_get. cbn [bind].
  destruct (match get d "name" with Some x => x | None => JStr "" end)
    as [| | |n| |]; try discriminate.
  cbn [call_normalize bind].
  destruct (Dict.get nm (normalize n)) as [g|] eqn:E.
  - cbn [bind]. intros [= _ ->]. eauto using get_in.
  - destruct (py_iter _) as [l|x]; [|discriminate]. cbn [bind].
    destruct (alias_loop nm l) as [[g|]|x] eqn:El; [| |discriminate];
      cbn [bind]; intros [= _ H].
    + subst g. eauto using alias_loop_in.
    + eauto using fallback_in.
Qed.

(** With the index of a directory, an image that is found is stored:
    [if img:] never fails on a file name. *)
Lemma assigned_norm_map listing e name img :
  find_image (norm_map listing) e = Ok (name, img) ->
  assigned (norm_map listing) e = img.
Proof.
  intros H. unfold assigned. rewrite H.
  destruct img as [f|]; [|reflexivity].
  destruct (find_image_in _ _ _ _ H) as [k Hk].
  apply norm_map_values in Hk. now destruct Hk as (_ & _ & ->).
Qed.

Lemma loop_body_found listing e name f st :
  find_image (norm_map listing) e = Ok (name, Some f) ->
  stores (norm_map listing) e f st.
Proof.
  intros H. destruct (find_image_in _ _ _ _ H) as [k Hk].
  apply norm_map_values in Hk. destruct Hk as (_ & _ & Ht).
  destruct (find_image_obj _ _ _ H) as [d ->].
  unfold stores, loop_body. rewrite H. cbn [bind]. now rewrite Ht.
Qed.

Lemma loop_body_not_found nm e name st :
  find_image nm e = Ok (name, None) -> reports nm e name st.
Proof.
  intros H. unfold reports. rewrite loop_body_spec, H.
  unfold updated, is_assigned, diagnostic, assigned. rewrite H.
  cbn [img_truthy]. now rewrite Nat.add_0_r.
Qed.

Lemma alias_loop_total nm l :
  forallb is_str l = true -> exists r, alias_loop nm l = Ok r.
Proof.
  induction l as [|a l IH]; simpl; [eauto|].
  destruct a; simpl; try discriminate.
  destruct (Dict.get nm (normalize s)); eauto.
Qed.

(** A record of the specified shape raises nothing. *)
Lemma wf_find_ok nm e : wf_record e = true -> find_ok nm e.
Proof.
  destruct e as [| | | | |d]; try discriminate.
  unfold wf_record, find_ok, find_image, py_get. cbn [bind].
  intros H. apply andb_prop in H. destruct H as [Hn Ha].
  assert (exists n, match get d "name" with Some x => x | None => JStr "" end
                     = JStr n) as [n ->].
  { destruct (get d "name") as [[]|]; try discriminate; eauto. }
  cbn [call_normalize bind].
  destruct (Dict.get nm (normalize n)); cbn [bind]; [eauto|].
  destruct (get d "aliases") as [[]|]; try discriminate; cbn [py_iter bind].
  - destruct (alias_loop_total nm items Ha) as [r ->]. cbn [bind]. eauto.
  - simpl. eauto.
Qed.

(** The run on a list of records that raise nothing. *)
Lemma run_records listing es :
  Forall (find_ok (norm_map listing)) es ->
  run listing (JArr es) =
  Ok (mkOutput (JArr (map (updated (norm_map listing)) es))
               (flat_map (diagnostic (norm_map listing)) es ++
                [summary (set_count (norm_map listing) es)])).
Proof.
  intros H. unfold run. cbn [py_iter bind].
  rewrite main_loop_spec by exact H. reflexivity.
Qed.

Lemma run_records_ok listing es out :
  run listing (JArr es) = Ok out -> Forall (find_ok (norm_map listing)) es.
Proof.
  unfold run. cbn [py_iter bind].
  destruct (main_loop _ es _) as [[es' st]|x] eqn:E; [|discriminate].
  intros _. eapply main_loop_ok, E.
Qed.

Lemma Forall2_map_self {A B : Type} (R : A -> B -> Prop) (f : A -> B)
    (l : list A) :
  (forall x, R x (f x)) -> Forall2 R l (map f l).
Proof. intros H. induction l; simpl; constructor; auto. Qed.

Lemma field_with_image_other e f k :
  k <> "image" -> field (with_image e f) k = field e k.
Proof.
  intros Hk. destruct e; try reflexivity. simpl.
  apply get_set_other. congruence.
Qed.

Lemma assigned_found nm e f :
  assigned nm e = Some f -> exists name, find_image nm e = Ok (name, Some f).
Proof.
  unfold assigned.
  destruct (find_image nm e) as [[name [g|]]|x]; try discriminate.
  destruct (Str.truthy g); [|discriminate].
  intros [= ->]. eauto.
Qed.

Lemma set_count_app nm l1 l2 :
  set_count nm (l1 ++ l2)%list = set_count nm l1 + set_count nm l2.
Proof. unfold set_count. now rewrite filter_app, length_app. Qed.

(** The outcome of a run that ends normally, read off the records. *)
Lemma run_outcome listing es out :
  run listing (JArr es) = Ok out ->
  out = mkOutput (JArr (map (updated (norm_map listing)) es))
                 (flat_map (diagnostic (norm_map listing)) es ++
                  [summary (set_count (norm_map listing) es)]).
Proof.
  intros H. pose proof (run_records_ok _ _ _ H) as Hok.
  rewrite (run_records _ _ Hok) in H. congruence.
Qed.

(** A second pass over the updated records finds, stores, counts and
    reports what the first pass did. *)
Lemma updated_fixed nm es :
  map (updated nm) (map (updated nm) es) = map (updated nm) es.
Proof. rewrite map_map. apply map_ext. intros e. apply updated_updated. Qed.

Lemma diagnostics_updated nm es :
  flat_map (diagnostic nm) (map (updated nm) es) =
  flat_map (diagnostic nm) es.
Proof.
  induction es as [|e es IH]; simpl; [reflexivity|].
  now rewrite diagnostic_updated, IH.
Qed.

Lemma set_count_updated nm es :
  set_count nm (map (updated nm) es) = set_count nm es.
Proof.
  unfold set_count. induction es as [|e es IH]; [reflexivity|].
  cbn [map filter].
  replace (is_assigned nm (updated nm e)) with (is_assigned nm e)
    by (unfold is_assigned; now rewrite assigned_updated).
  destruct (is_assigned nm e); cbn [List.length]; now rewrite IH.
Qed.

Lemma find_ok_updated nm es :
  Forall (find_ok nm) es -> Forall (find_ok nm) (map (updated nm) es).
Proof.
  induction 1 as [|e es He _ IH]; simpl; constructor; [|exact IH].
  unfold find_ok. now rewrite find_image_updated.
Qed.

(** On a document of the specified shape the loop raises neither of the
    two exceptions of the model. *)
Lemma run_total listing es :
  forallb wf_record es = true -> exists out, run listing (JArr es) = Ok out.
Proof.
  intros H. eexists. apply run_records.
  rewrite forallb_forall in H. apply Forall_forall.
  intros e He. apply wf_find_ok; auto.
Qed.

End RunFacts.

(** ** The three stages of the match: lemmas *)

Module MatchFacts.
Import Dict DictFacts StrFacts.

Lemma find_image_by_name nm e name f :
  py_get e "name" (JStr "") = Ok (JStr name) ->
  Dict.get nm (normalize name) = Some f ->
  find_image nm e = Ok (name, Some f).
Proof.
  intros Hn Hf. unfold find_image. rewrite Hn. cbn [bind call_normalize].
  now rewrite Hf.
Qed.

Lemma find_image_by_alias nm e name aliases l :
  py_get e "name" (JStr "") = Ok (JStr name) ->
  Dict.get nm (normalize name) = None ->
  py_get e "aliases" (JArr []) = Ok aliases ->
  py_iter aliases = Ok l ->
  find_image nm e =
  bind (alias_loop nm l)
       (fun img => Ok (name, match img with
                             | None => fallback nm name
                             | Some _ => img
                             end)).
Proof.
  intros Hn Hf Ha Hl. unfold find_image.
  rewrite Hn. cbn [bind call_normalize]. rewrite Hf, Ha. cbn [bind].
  now rewrite Hl.
Qed.

Lemma find_image_fallback nm e name :
  no_exact_match nm e name -> find_image nm e = Ok (name, fallback nm name).
Proof.
  intros (Hn & Hf & aliases & l & Ha & Hl & Hloop).
  rewrite (find_image_by_alias _ _ _ _ _ Hn Hf Ha Hl), Hloop. reflexivity.
Qed.

(** The alias loop stops at the first alias whose normalisation is a key;
    what follows it is not looked at. *)
Lemma alias_loop_first nm before a after f :
  Forall (fun b => Dict.get nm (normalize b) = None) before ->
  Dict.get nm (normalize a) = Some f ->
  alias_loop nm (map JStr before ++ JStr a :: after)%list = Ok (Some f).
Proof.
  intros Hb Ha. induction Hb as [|b before Hb _ IH]; simpl.
  - now rewrite Ha.
  - now rewrite Hb.
Qed.

Lemma alias_loop_none nm aliases :
  Forall (fun b => Dict.get nm (normalize b) = None) aliases ->
  alias_loop nm (map JStr aliases) = Ok None.
Proof.
  induction 1 as [|b aliases Hb _ IH]; simpl; [reflexivity|].
  now rewrite Hb.
Qed.

Lemma all_parts_in_spec name k :
  all_parts_in (name_parts name) k = true <-> holds_all_parts name k.
Proof.
  unfold all_parts_in, holds_all_parts.
  rewrite forallb_forall, Forall_forall.
  split; intros H p Hp; apply str_in_spec; auto.
Qed.

(** A name has no part exactly when it is made of separators only; the
    empty name, which also stands for a missing one, is such a name. *)
Lemma name_parts_nil_iff name :
  name_parts name = [] <-> Str.all_seps name = true.
Proof. apply no_parts_iff. Qed.

(** The fallback takes the first key, in the order of the index, that
    holds every part. *)
Lemma fallback_first nm name kvs1 k f kvs2 :
  nm = (kvs1 ++ (k, f) :: kvs2)%list ->
  Forall (fun kv => ~ holds_all_parts name (fst kv)) kvs1 ->
  holds_all_parts name k ->
  fallback nm name = Some f.
Proof.
  intros -> H1 Hk. unfold fallback. rewrite RunFacts.find_skip.
  - simpl. apply all_parts_in_spec in Hk. now rewrite Hk.
  - eapply Forall_impl; [|exact H1]. intros kv Hkv.
    apply not_true_is_false. now rewrite all_parts_in_spec.
Qed.

Lemma fallback_none nm name :
  Forall (fun kv => ~ holds_all_parts name (fst kv)) nm ->
  fallback nm name = None.
Proof.
  intros H. unfold fallback.
  replace (find _ nm) with (@None (string * string)); [reflexivity|].
  induction H as [|kv nm Hkv _ IH]; simpl; [reflexivity|].
  rewrite <- all_parts_in_spec in Hkv.
  apply not_true_is_false in Hkv. now rewrite Hkv.
Qed.

(** The image stored in a record that [find_image] matches, after a run
    that ends normally. *)
Lemma run_sets_image listing es out i e name f :
  run listing (JArr es) = Ok out ->
  nth_error es i = Some e ->
  find_image (norm_map listing) e = Ok (name, Some f) ->
  exists es' e',
    written out = JArr es' /\ nth_error es' i = Some e' /\
    e' = with_image e f /\ field e' "image" = Some (JStr f).
Proof.
  intros Hrun Hi Hf.
  pose proof (RunFacts.run_records_ok _ _ _ Hrun) as Hok.
  rewrite (RunFacts.run_records _ _ Hok) in Hrun. injection Hrun as <-.
  exists (map (updated (norm_map listing)) es), (with_image e f).
  cbn [written]. split; [reflexivity|]. split.
  - rewrite nth_error_map, Hi. cbn [option_map]. unfold updated.
    now rewrite (RunFacts.assigned_norm_map _ _ _ _ Hf).
  - split; [reflexivity|].
    destruct (LoopFacts.find_image_obj _ _ _ Hf) as [d ->].
    cbn [with_image field]. apply get_set_same.
Qed.

End MatchFacts.

(** ** The claims *)

Import Dict DictFacts StrFacts LoopFacts RunFacts MatchFacts.

(** C1. For every record the stages are tried in a fixed order and the
    first success decides.  Stage 1: when [normalize name] is a key of the
    index, that key's file name is stored in the record, whatever the
    aliases are.  Stage 2: otherwise the first alias, in the given order,
    whose normalisation is a key decides, whatever comes after it.
    Stage 3: when neither finds a key, the name is split into its
    non-empty parts and the file name stored is that of the first key, in
    the order of the index, that holds every normalised part as a
    substring; when no key does, nothing is stored and the record is
    reported. *)
Theorem C1_stages_in_order (listing : list string) (e : json)
    (name : string) (st : state) :
  py_get e "name" (JStr "") = Ok (JStr name) ->
  (forall f,
      Dict.get (norm_map listing) (normalize name) = Some f ->
      stores (norm_map listing) e f st) /\
  (Dict.get (norm_map listing) (normalize name) = None ->
   forall aliases before a after f,
     py_get e "aliases" (JArr []) = Ok aliases ->
     py_iter aliases = Ok (map JStr before ++ JStr a :: after)%list ->
     Forall (fun b => Dict.get (norm_map listing) (normalize b) = None)
            before ->
     Dict.get (norm_map listing) (normalize a) = Some f ->
     stores (norm_map listing) e f st) /\
  (Dict.get (norm_map listing) (normalize name) = None ->
   forall aliases names,
     py_get e "aliases" (JArr []) = Ok aliases ->
     py_iter aliases = Ok (map JStr names) ->
     Forall (fun b => Dict.get (norm_map listing) (normalize b) = None)
            names ->
     (forall kvs1 k f kvs2,
         norm_map listing = (kvs1 ++ (k, f) :: kvs2)%list ->
         Forall (fun kv => ~ holds_all_parts name (fst kv)) kvs1 ->
         holds_all_parts name k ->
         stores (norm_map listing) e f st) /\
     (Forall (fun kv => ~ holds_all_parts name (fst kv)) (norm_map listing) ->
      reports (norm_map listing) e name st)).
Proof.
  intros Hn. split; [|split].
  - intros f Hf. apply (loop_body_found _ _ name).
    now apply find_image_by_name.
  - intros Hnone aliases before a after f Ha Hl Hb Hf.
    apply (loop_body_found _ _ name).
    rewrite (find_image_by_alias _ _ _ _ _ Hn Hnone Ha Hl).
    now rewrite (alias_loop_first _ _ _ _ _ Hb Hf).
  - intros Hnone aliases names Ha Hl Hb.
    assert (Hno : no_exact_match (norm_map listing) e name).
    { repeat split; trivial. exists aliases, (map JStr names).
      repeat split; trivial. now apply alias_loop_none. }
    pose proof (find_image_fallback _ _ _ Hno) as Hfind. split.
    + intros kvs1 k f kvs2 Hnm H1 Hk. apply (loop_body_found _ _ name).
      now rewrite Hfind, (fallback_first _ _ _ _ _ _ Hnm H1 Hk).
    + intros Hall. apply loop_body_not_found.
      now rewrite Hfind, (fallback_none _ _ Hall).
Qed.

Lemma C1_stages_in_order_witness :
  let nm := norm_map example_listing in
  let st := mkState 0 [] in
  stores nm rec_by_name "John_Smith.png" st /\
  stores nm rec_by_alias "Jane-Doe.png" st /\
  stores nm rec_by_parts "John_Smith.png" st /\
  reports nm rec_unknown "Unknown Person" st.
Proof.
  intros nm st. split; [|split; [|split]].
  - apply (proj1 (C1_stages_in_order example_listing rec_by_name
                    "John Smith" st eq_refl)).
    reflexivity.
  - apply (proj1 (proj2
             (C1_stages_in_order example_listing rec_by_alias
                "Jane O'Doe" st eq_refl))
             eq_refl _ ["J. Doe"] "Jane Doe" [JNum "7"] _ eq_refl eq_refl).
    + repeat constructor.
    + reflexivity.
  - apply (proj1 (proj2 (proj2
             (C1_stages_in_order example_listing rec_by_parts
                "Smith John" st eq_refl))
             eq_refl _ [] eq_refl eq_refl (Forall_nil _))
             [] "John_Smith" _ [("Jane_Doe", "Jane-Doe.png")] eq_refl).
    + constructor.
    + apply all_parts_in_spec. reflexivity.
  - apply (proj2 (proj2 (proj2
             (C1_stages_in_order example_listing rec_unknown
                "Unknown Person" st eq_refl))
             eq_refl _ [] eq_refl eq_refl (Forall_nil _))).
    repeat constructor; rewrite <- all_parts_in_spec; vm_compute;
      discriminate.
Defined.

(** C2 as stated fails: the key of a file keeps the double quotes of the
    stem, [normalize] removes them. *)
Lemma C2_quotes_kept_in_key :
  In quoted_file (image_files [quoted_file]) /\
  file_key quoted_file = String "a" (String Str.dquote "b") /\
  normalize (fst (Str.splitext quoted_file)) = "ab" /\
  file_key quoted_file <> normalize (fst (Str.splitext quoted_file)).
Proof.
  split; [|split; [|split]].
  - vm_compute. auto.
  - reflexivity.
  - reflexivity.
  - vm_compute. discriminate.
Qed.

(** C2, amended.  The key of a file is its stem with every space, hyphen
    and apostrophe replaced by an underscore; double quotes are removed
    from names and aliases only.  For every file whose stem has no double
    quote, the key is [normalize] of the stem. *)
Theorem C2_key_is_normalize_without_quotes (f : string) :
  Str.occurs Str.dquote (fst (Str.splitext f)) = false ->
  file_key f = normalize (fst (Str.splitext f)).
Proof.
  intros H. unfold file_key, normalize.
  now rewrite remove_char_absent.
Qed.

Lemma C2_key_is_normalize_without_quotes_witness :
  file_key "Jane-Doe.png" = normalize (fst (Str.splitext "Jane-Doe.png")).
Proof.
  apply (C2_key_is_normalize_without_quotes "Jane-Doe.png"). reflexivity.
Defined.

(** C3 as stated fails, in two ways: of two files with the same key the
    one listed later takes the key, and a file with a double quote in its
    stem has a key that no normalised name equals. *)
Lemma C3_twin_and_quoted_files :
  (In "A B.png" (image_files twin_listing) /\
   normalize "A B" = normalize (fst (Str.splitext "A B.png")) /\
   run twin_listing twin_data =
     Ok (mkOutput
           (JArr [JObj [("name", JStr "A B"); ("image", JStr "A-B.png")]])
           ["Updated 1 entries"]) /\
   JStr "A-B.png" <> JStr "A B.png") /\
  (In quoted_file (image_files [quoted_file]) /\
   normalize "ab" = normalize (fst (Str.splitext quoted_file)) /\
   run [quoted_file] (JArr [JObj [("name", JStr "ab")]]) =
     Ok (mkOutput (JArr [JObj [("name", JStr "ab")]])
                  ["No image found for ab"; "Updated 0 entries"])).
Proof.
  split; [split; [|split; [|split]]|split; [|split]];
    try (vm_compute; auto; fail).
  discriminate.
Qed.

(** C3, amended.  Let [f] be a file of the directory with the extension,
    with no double quote in its stem, and such that no file listed after
    it has the same key.  After a run that ends normally, every record
    whose name [n] has [normalize n = normalize (stem of f)] holds [f] in
    its image field. *)
Theorem C3_name_match_sets_image (listing : list string) (es : list json)
    (out : output) (i : nat) (e : json) (n f : string)
    (before after : list string) :
  run listing (JArr es) = Ok out ->
  nth_error es i = Some e ->
  field e "name" = Some (JStr n) ->
  image_files listing = (before ++ f :: after)%list ->
  Forall (fun g => file_key g <> file_key f) after ->
  Str.occurs Str.dquote (fst (Str.splitext f)) = false ->
  normalize n = normalize (fst (Str.splitext f)) ->
  exists es' e',
    written out = JArr es' /\ nth_error es' i = Some e' /\
    field e' "image" = Some (JStr f).
Proof.
  intros Hrun Hi Hn Hl Hafter Hq Hnf.
  assert (Hkey : Dict.get (norm_map listing) (normalize n) = Some f).
  { rewrite Hnf. unfold normalize. rewrite remove_char_absent by exact Hq.
    exact (norm_map_last _ _ _ _ Hl Hafter). }
  assert (Hget : py_get e "name" (JStr "") = Ok (JStr n)).
  { destruct e; try discriminate. simpl in Hn |- *. now rewrite Hn. }
  destruct (run_sets_image _ _ _ _ _ _ _ Hrun Hi
              (find_image_by_name _ _ _ _ Hget Hkey))
    as (es' & e' & H1 & H2 & _ & H3).
  now exists es', e'.
Qed.

Lemma C3_name_match_sets_image_witness :
  exists es' e',
    written example_output = JArr es' /\ nth_error es' 0 = Some e' /\
    field e' "image" = Some (JStr "John_Smith.png").
Proof.
  apply (C3_name_match_sets_image example_listing
           example_records
           example_output 0 (JObj [("name", JStr "John Smith")])
           "John Smith" "John_Smith.png" [] ["Jane-Doe.png"]).
  - vm_compute. reflexivity.
  - reflexivity.
  - reflexivity.
  - vm_compute. reflexivity.
  - constructor; [vm_compute; discriminate | constructor].
  - vm_compute. reflexivity.
  - vm_compute. reflexivity.
Defined.

(** C4 as stated fails: of two aliases that both have an image the first
    decides, so the second one's file is not the one stored. *)
Lemma C4_first_alias_wins :
  let nm := norm_map two_alias_listing in
  Dict.get nm (normalize "X") = None /\
  Dict.get nm (normalize "B") = Some "B.png" /\
  run two_alias_listing two_alias_data =
    Ok (mkOutput
          (JArr [JObj [("name", JStr "X");
                       ("aliases", JArr [JStr "A"; JStr "B"]);
                       ("image", JStr "A.png")]])
          ["Updated 1 entries"]) /\
  JStr "A.png" <> JStr "B.png".
Proof.
  intros nm. split; [|split; [|split]]; try (vm_compute; reflexivity).
  discriminate.
Qed.

(** C4, amended.  For every record whose normalised name is not a key and
    with an alias [a] such that [normalize a] is a key while the
    normalisation of no alias before [a] is one, after a run that ends
    normally the record's image field is the file name of that key. *)
Theorem C4_first_matching_alias_sets_image (listing : list string)
    (es : list json) (out : output) (i : nat) (e : json) (name : string)
    (aliases : json) (before : list string) (a : string) (after : list json)
    (f : string) :
  run listing (JArr es) = Ok out ->
  nth_error es i = Some e ->
  py_get e "name" (JStr "") = Ok (JStr name) ->
  Dict.get (norm_map listing) (normalize name) = None ->
  py_get e "aliases" (JArr []) = Ok aliases ->
  py_iter aliases = Ok (map JStr before ++ JStr a :: after)%list ->
  Forall (fun b => Dict.get (norm_map listing) (normalize b) = None) before ->
  Dict.get (norm_map listing) (normalize a) = Some f ->
  exists es' e',
    written out = JArr es' /\ nth_error es' i = Some e' /\
    field e' "image" = Some (JStr f).
Proof.
  intros Hrun Hi Hn Hnone Ha Hl Hb Hf.
  assert (Hfind : find_image (norm_map listing) e = Ok (name, Some f)).
  { rewrite (find_image_by_alias _ _ _ _ _ Hn Hnone Ha Hl).
    now rewrite (alias_loop_first _ _ _ _ _ Hb Hf). }
  destruct (run_sets_image _ _ _ _ _ _ _ Hrun Hi Hfind)
    as (es' & e' & H1 & H2 & _ & H3).
  now exists es', e'.
Qed.

Lemma C4_first_matching_alias_sets_image_witness :
  exists es' e',
    written example_output = JArr es' /\ nth_error es' 1 = Some e' /\
    field e' "image" = Some (JStr "Jane-Doe.png").
Proof.
  apply (C4_first_matching_alias_sets_image example_listing
           example_records
           example_output 1
           (JObj [("name", JStr "Jane O'Doe");
                  ("aliases", JArr [JStr "Jane Doe"])])
           "Jane O'Doe" (JArr [JStr "Jane Doe"]) [] "Jane Doe" []
           "Jane-Doe.png").
  - vm_compute. reflexivity.
  - reflexivity.
  - reflexivity.
  - vm_compute. reflexivity.
  - reflexivity.
  - reflexivity.
  - constructor.
  - vm_compute. reflexivity.
Defined.

(** C5. After a run that ends normally, the number in the summary line,
    the last line of the console, is the number of records in which the
    loop stored an image: each of those records is the old one with the
    image stored, every other record is as it was. *)
Theorem C5_count_is_number_of_records_set (listing : list string)
    (es : list json) (out : output) :
  run listing (JArr es) = Ok out ->
  exists es',
    written out = JArr es' /\
    Forall2 (fun e e' =>
               match assigned (norm_map listing) e with
               | Some f => e' = with_image e f
               | None => e' = e
               end) es es' /\
    last (console out) "" =
    summary (List.length
               (filter (fun e =>
                          match assigned (norm_map listing) e with
                          | Some _ => true
                          | None => false
                          end) es)).
Proof.
  intros Hrun. rewrite (run_outcome _ _ _ Hrun). cbn [written console].
  eexists. split; [reflexivity|]. split.
  - apply Forall2_map_self. intros e. unfold updated.
    now destruct (assigned (norm_map listing) e).
  - now rewrite last_last.
Qed.

Lemma C5_count_is_number_of_records_set_witness :
  exists es',
    written example_output = JArr es' /\
    Forall2 (fun e e' =>
               match assigned (norm_map example_listing) e with
               | Some f => e' = with_image e f
               | None => e' = e
               end) example_records es' /\
    last (console example_output) "" = summary 2.
Proof.
  apply (C5_count_is_number_of_records_set example_listing example_records).
  vm_compute. reflexivity.
Defined.

(** C6. A record for which nothing is found does not end the run.  When
    the other records raise nothing, the run ends normally: the record is
    written back exactly as it was (an image it had is kept, none is
    added), one line naming it is printed at its place among the
    diagnostics, and the other records, the other lines and the count are
    what they are without it. *)
Theorem C6_unmatched_record_is_not_fatal (listing : list string)
    (pre post : list json) (e : json) (name : string) :
  Forall (find_ok (norm_map listing)) pre ->
  Forall (find_ok (norm_map listing)) post ->
  find_image (norm_map listing) e = Ok (name, None) ->
  run listing (JArr (pre ++ e :: post)) =
  Ok (mkOutput
        (JArr (map (updated (norm_map listing)) pre ++
               e :: map (updated (norm_map listing)) post))
        (flat_map (diagnostic (norm_map listing)) pre ++
         no_image_line name ::
         flat_map (diagnostic (norm_map listing)) post ++
         [summary (set_count (norm_map listing) (pre ++ post))])).
Proof.
  intros Hpre Hpost He.
  assert (Hok : Forall (find_ok (norm_map listing)) (pre ++ e :: post)).
  { apply Forall_app. split; [exact Hpre|].
    constructor; [now exists (name, @None string)|exact Hpost]. }
  rewrite (run_records _ _ Hok).
  assert (Hu : updated (norm_map listing) e = e).
  { unfold updated, assigned. now rewrite He. }
  assert (Hd : diagnostic (norm_map listing) e =
               [no_image_line name]).
  { unfold diagnostic. now rewrite He. }
  assert (Hc : is_assigned (norm_map listing) e = false).
  { unfold is_assigned, assigned. now rewrite He. }
  rewrite map_app, flat_map_app, !set_count_app. cbn [map flat_map].
  rewrite Hu, Hd. unfold set_count at 2. cbn [filter]. rewrite Hc.
  fold (set_count (norm_map listing) post).
  rewrite <- !app_assoc. reflexivity.
Qed.

Lemma C6_unmatched_record_is_not_fatal_witness :
  run example_listing
      (JArr [JObj [("name", JStr "John Smith")];
             JObj [("name", JStr "Unknown Person"); ("image", JStr "old.png")];
             JObj [("name", JStr "Nobody")]]) =
  Ok (mkOutput
        (JArr [JObj [("name", JStr "John Smith");
                     ("image", JStr "John_Smith.png")];
               JObj [("name", JStr "Unknown Person");
                     ("image", JStr "old.png")];
               JObj [("name", JStr "Nobody")]])
        ["No image found for Unknown Person"; "No image found for Nobody";
         "Updated 1 entries"]).
Proof.
  apply (C6_unmatched_record_is_not_fatal example_listing
           [JObj [("name", JStr "John Smith")]]
           [JObj [("name", JStr "Nobody")]]
           (JObj [("name", JStr "Unknown Person"); ("image", JStr "old.png")])
           "Unknown Person").
  - repeat constructor. eexists. vm_compute. reflexivity.
  - repeat constructor. eexists. vm_compute. reflexivity.
  - vm_compute. reflexivity.
Defined.

(** C7 as stated fails: the same set of images listed in another order
    is another index order, and the fallback takes the first key in that
    order.  Two files with different keys, a record named Jones: the
    first run stores the file listed first, and a second run on its
    output, with the same two files listed the other way round, stores
    the other. *)
Lemma C7_listing_order_matters :
  Permutation jones_listing jones_listing_reversed /\
  NoDup (map file_key (image_files jones_listing)) /\
  run jones_listing jones_data =
    Ok (mkOutput jones_after_first_run ["Updated 1 entries"]) /\
  run jones_listing_reversed jones_after_first_run =
    Ok (mkOutput jones_after_second_run ["Updated 1 entries"]) /\
  jones_after_second_run <> jones_after_first_run.
Proof.
  split; [|split; [|split; [|split]]].
  - apply perm_swap.
  - vm_compute. repeat constructor; simpl; intuition discriminate.
  - vm_compute. reflexivity.
  - vm_compute. reflexivity.
  - discriminate.
Qed.

(** C7, amended.  With the directory listed in the same order on both
    runs, the output of a run is a fixed point: a second run on the
    document the first run wrote ends normally and writes the same
    document (and prints the same lines). *)
Theorem C7_second_run_changes_nothing (listing : list string) (data : json)
    (out : output) :
  run listing data = Ok out -> run listing (written out) = Ok out.
Proof.
  intros Hrun.
  assert (Hcases : (exists es, data = JArr es) \/ written out = data).
  { destruct data; eauto; right; unfold run in Hrun;
      (destruct (py_iter _) as [l|x]; [|discriminate]); cbn [bind] in Hrun;
      (destruct (main_loop _ l _) as [[es' st]|x]; [|discriminate]);
      cbn [bind] in Hrun; injection Hrun as <-; reflexivity. }
  destruct Hcases as [[es ->] | Hsame]; [|now rewrite Hsame].
  pose proof (run_records_ok _ _ _ Hrun) as Hok.
  rewrite (run_outcome _ _ _ Hrun). cbn [written].
  rewrite (run_records _ _ (find_ok_updated _ _ Hok)).
  now rewrite updated_fixed, diagnostics_updated, set_count_updated.
Qed.

Lemma C7_second_run_changes_nothing_witness :
  run example_listing (written example_output) = Ok example_output.
Proof.
  apply (C7_second_run_changes_nothing example_listing example_data).
  vm_compute. reflexivity.
Defined.

(** C8. The example of the specification: with the two files listed in
    either order, the first record gets [John_Smith.png] by its name, the
    second gets [Jane-Doe.png] by its alias, the third gets nothing and is
    reported, and the summary counts two records. *)
Theorem C8_example_run :
  run ["John_Smith.png"; "Jane-Doe.png"] example_data = Ok example_output /\
  run ["Jane-Doe.png"; "John_Smith.png"] example_data = Ok example_output.
Proof. split; vm_compute; reflexivity. Qed.

(** C9. A record whose name splits into no non-empty part (it is empty,
    missing, or made of spaces, hyphens and apostrophes only) and for
    which neither the name nor an alias is a key: when the index is not
    empty, the loop body stores the file name of the first key of the
    index in the record and adds one to the count, printing nothing. *)
Theorem C9_no_parts_takes_first_key (listing : list string) (e : json)
    (name k f : string) (rest : Dict.t string) (st : state) :
  name_parts name = [] ->
  no_exact_match (norm_map listing) e name ->
  norm_map listing = (k, f) :: rest ->
  stores (norm_map listing) e f st /\
  field (with_image e f) "image" = Some (JStr f).
Proof.
  intros Hparts Hno Hnm.
  assert (Hfind : find_image (norm_map listing) e = Ok (name, Some f)).
  { rewrite (find_image_fallback _ _ _ Hno). unfold fallback.
    rewrite Hparts, Hnm. reflexivity. }
  split.
  - exact (loop_body_found _ _ _ _ _ Hfind).
  - destruct (find_image_obj _ _ _ Hfind) as [d ->].
    cbn [with_image field]. apply get_set_same.
Qed.

Lemma C9_no_parts_takes_first_key_witness :
  stores (norm_map example_listing) (JObj [("name", JStr " - '")])
         "John_Smith.png" (mkState 0 []) /\
  field (with_image (JObj [("name", JStr " - '")]) "John_Smith.png") "image"
    = Some (JStr "John_Smith.png").
Proof.
  apply (C9_no_parts_takes_first_key example_listing
           (JObj [("name", JStr " - '")]) " - '" "John_Smith"
           "John_Smith.png" [("Jane_Doe", "Jane-Doe.png")] (mkState 0 [])).
  - reflexivity.
  - split; [reflexivity|]. split; [reflexivity|].
    exists (JArr []), []. repeat split.
  - reflexivity.
Defined.

(** C10. After a run that ends normally there are as many records as
    before, in the same order, and each is either untouched or the old
    record with the image of a match stored in it; in both cases every
    field other than the image is what it was. *)
Theorem C10_only_image_changes (listing : list string) (es : list json)
    (out : output) :
  run listing (JArr es) = Ok out ->
  exists es',
    written out = JArr es' /\
    Forall2 (fun e e' =>
               (forall k, k <> "image" -> field e' k = field e k) /\
               (e' = e \/
                exists name f,
                  find_image (norm_map listing) e = Ok (name, Some f) /\
                  e' = with_image e f)) es es'.
Proof.
  intros Hrun. rewrite (run_outcome _ _ _ Hrun). cbn [written].
  eexists. split; [reflexivity|].
  apply Forall2_map_self. intros e. unfold updated.
  destruct (assigned (norm_map listing) e) as [f|] eqn:E.
  - split.
    + intros k Hk. now apply field_with_image_other.
    + right. destruct (assigned_found _ _ _ E) as [name Hname]. eauto.
  - split; [reflexivity|now left].
Qed.

Lemma C10_only_image_changes_witness :
  exists es',
    written example_output = JArr es' /\
    Forall2 (fun e e' =>
               (forall k, k <> "image" -> field e' k = field e k) /\
               (e' = e \/
                exists name f,
                  find_image (norm_map example_listing) e
                    = Ok (name, Some f) /\
                  e' = with_image e f)) example_records es'.
Proof.
  apply (C10_only_image_changes example_listing example_records).
  vm_compute. reflexivity.
Defined.

(** * Further properties

    Of [normalize] and the splitting of names, of the index, of the
    exceptions and of the loop. *)

(** ** Normalisation and name parts: lemmas *)

Module NormFacts.
Import Str StrFacts.

Lemma remove_char_app c a b :
  remove_char c (a ++ b)%string = (remove_char c a ++ remove_char c b)%string.
Proof.
  induction a as [|d a IH]; simpl; [reflexivity|].
  destruct (d =? c)%char; simpl; now rewrite IH.
Qed.

Lemma sub_seps_app a b :
  sub_seps (a ++ b)%string = (sub_seps a ++ sub_seps b)%string.
Proof. induction a as [|d a IH]; simpl; [reflexivity|now rewrite IH]. Qed.

Lemma normalize_app a b :
  normalize (a ++ b)%string = (normalize a ++ normalize b)%string.
Proof. unfold normalize. now rewrite remove_char_app, sub_seps_app. Qed.

Lemma occurs_remove_char c s : occurs c (remove_char c s) = false.
Proof.
  induction s as [|d s IH]; simpl; [reflexivity|].
  destruct (d =? c)%char eqn:E; simpl; [exact IH|now rewrite E].
Qed.

(** Replacing the separators neither adds nor removes a double quote. *)
Lemma occurs_dquote_sub_seps s : occurs dquote (sub_seps s) = occurs dquote s.
Proof.
  induction s as [|d s IH]; simpl; [reflexivity|]. rewrite IH.
  destruct (is_sep d) eqn:E; [|reflexivity].
  unfold is_sep in E. apply orb_prop in E.
  destruct E as [E|E]; [apply orb_prop in E; destruct E as [E|E]|];
    apply Ascii.eqb_eq in E; subst d; reflexivity.
Qed.

(** A separator in the string, as a test. *)
Lemma sub_seps_fixed s :
  (forall c, In c (list_ascii_of_string s) -> is_sep c = false) ->
  sub_seps s = s.
Proof.
  induction s as [|d s IH]; simpl; [reflexivity|].
  intros H. rewrite (H d) by now left. rewrite IH; [reflexivity|].
  intros c Hc. apply H. now right.
Qed.

Lemma sub_seps_no_sep s c :
  In c (list_ascii_of_string (sub_seps s)) -> is_sep c = false.
Proof.
  induction s as [|d s IH]; simpl; [intros []|].
  intros [<-|H]; [|auto].
  destruct (is_sep d) eqn:E; [reflexivity|exact E].
Qed.

Lemma occurs_in c s :
  occurs c s = true <-> In c (list_ascii_of_string s).
Proof.
  induction s as [|d s IH]; simpl.
  - split; [discriminate|intros []].
  - rewrite orb_true_iff, IH, Ascii.eqb_eq. tauto.
Qed.

Lemma chars_app a b :
  list_ascii_of_string (a ++ b)%string =
  (list_ascii_of_string a ++ list_ascii_of_string b)%list.
Proof. induction a as [|d a IH]; simpl; [reflexivity|now rewrite IH]. Qed.

(** The first piece of a split is a prefix of the string. *)
Lemma re_split_head s p ps :
  re_split s = p :: ps -> exists post, s = (p ++ post)%string.
Proof.
  revert p ps. induction s as [|c s IH]; intros p ps; simpl.
  - intros [= <- <-]. now exists EmptyString.
  - destruct (is_sep c).
    + intros [= <- <-]. now exists (String c s).
    + destruct (re_split s) as [|q qs] eqn:E.
      * intros [= <- <-]. now destruct (re_split_nonempty s).
      * intros [= <- <-]. destruct (IH q qs eq_refl) as [post ->].
        now exists post.
Qed.

(** Every piece of a split is a block of the string. *)
Lemma re_split_substring s p : In p (re_split s) -> substring_of p s.
Proof.
  revert p. induction s as [|c s IH]; intros p; simpl.
  - intros [<-|[]]. now exists EmptyString, EmptyString.
  - destruct (is_sep c).
    + intros [<-|H].
      * now exists EmptyString, (String c s).
      * destruct (IH p H) as (pre & post & ->).
        now exists (String c pre), post.
    + destruct (re_split s) as [|q qs] eqn:E.
      * now destruct (re_split_nonempty s).
      * intros [<-|H].
        -- destruct (re_split_head s q qs E) as [post ->].
           now exists EmptyString, post.
        -- destruct (IH p (or_intror H)) as (pre & post & ->).
           now exists (String c pre), post.
Qed.

(** No piece of a split holds a separator. *)
Lemma re_split_no_sep s p c :
  In p (re_split s) -> In c (list_ascii_of_string p) -> is_sep c = false.
Proof.
  revert p. induction s as [|d s IH]; intros p; simpl.
  - intros [<-|[]] [].
  - destruct (is_sep d) eqn:Ed.
    + intros [<-|H]; [intros []|now apply IH].
    + destruct (re_split s) as [|q qs] eqn:E.
      * now destruct (re_split_nonempty s).
      * intros [<-|H].
        -- simpl. intros [<-|Hc]; [exact Ed|]. apply (IH q); [now left|exact Hc].
        -- apply IH. now right.
Qed.

Lemma remove_char_all c s :
  (forall d, In d (list_ascii_of_string s) -> d = c) ->
  remove_char c s = EmptyString.
Proof.
  induction s as [|d s IH]; simpl; [reflexivity|].
  intros H. rewrite (H d) by now left. rewrite Ascii.eqb_refl.
  apply IH. intros x Hx. apply H. now right.
Qed.

Lemma substring_of_chars p s c :
  substring_of p s -> In c (list_ascii_of_string p) ->
  In c (list_ascii_of_string s).
Proof.
  intros (pre & post & ->) H. rewrite !chars_app, !in_app_iff. auto.
Qed.

Lemma normalize_substring p s :
  substring_of p s -> substring_of (normalize p) (normalize s).
Proof.
  intros (pre & post & ->). rewrite !normalize_app.
  now exists (normalize pre), (normalize post).
Qed.

Lemma find_exists {A : Type} (q : A -> bool) (l : list A) (x : A) :
  In x l -> q x = true -> exists y, find q l = Some y.
Proof.
  induction l as [|a l IH]; simpl; [intros []|].
  intros [->|H] Hq.
  - rewrite Hq. eauto.
  - destruct (q a); eauto.
Qed.

End NormFacts.

Import NormFacts.

(** X1. [normalize] is idempotent: a normalised string is its own
    normalisation. *)
Theorem X1_normalize_idempotent (s : string) :
  normalize (normalize s) = normalize s.
Proof.
  unfold normalize at 1.
  rewrite remove_char_absent.
  - apply sub_seps_fixed. intros c. unfold normalize. apply sub_seps_no_sep.
  - unfold normalize.
    now rewrite occurs_dquote_sub_seps, occurs_remove_char.
Qed.

(** X2. A normalised string holds no double quote, space, hyphen or
    apostrophe. *)
Theorem X2_normalize_alphabet (s : string) :
  Forall (fun c => c <> Str.dquote /\ c <> " "%char /\ c <> "-"%char /\
                   c <> "'"%char)
         (list_ascii_of_string (normalize s)).
Proof.
  apply Forall_forall. intros c Hc. split.
  - intros ->. apply occurs_in in Hc. unfold normalize in Hc.
    rewrite occurs_dquote_sub_seps, occurs_remove_char in Hc. discriminate.
  - apply sub_seps_no_sep in Hc. unfold Str.is_sep in Hc.
    repeat split; intros ->; discriminate.
Qed.

(** X3. [normalize] works character by character: the normalisation of
    a concatenation is the concatenation of the normalisations, and a
    double quote anywhere in a string leaves no trace. *)
Theorem X3_normalize_concat_and_quotes (a b : string) :
  normalize (a ++ b)%string = (normalize a ++ normalize b)%string /\
  normalize (a ++ String Str.dquote b)%string = normalize (a ++ b)%string.
Proof.
  split; [apply normalize_app|].
  rewrite !normalize_app. f_equal.
Qed.

(** X4. The parts of a name: each is non-empty, is a block of the name,
    and holds no space, hyphen or apostrophe. *)
Theorem X4_name_parts_are_blocks (name : string) :
  Forall (fun p =>
            p <> EmptyString /\ Str.substring_of p name /\
            forall c, In c (list_ascii_of_string p) -> Str.is_sep c = false)
         (name_parts name).
Proof.
  apply Forall_forall. intros p Hp. unfold name_parts in Hp.
  apply filter_In in Hp. destruct Hp as [Hin Ht]. repeat split.
  - intros ->. discriminate.
  - now apply re_split_substring.
  - intros c Hc. exact (re_split_no_sep _ _ _ Hin Hc).
Qed.

(** X5. Splitting and substituting agree: the pieces of the split of a
    string, joined by underscores, are the string with its spaces,
    hyphens and apostrophes replaced by underscores. *)
Theorem X5_split_then_join_is_substitution (s : string) :
  String.concat "_" (Str.re_split s) = Str.sub_seps s.
Proof.
  induction s as [|c s IH]; simpl; [reflexivity|].
  destruct (Str.is_sep c) eqn:Ec.
  - pose proof (re_split_nonempty s) as Hne.
    destruct (Str.re_split s) as [|q qs]; [contradiction|].
    now rewrite <- IH.
  - destruct (Str.re_split s) as [|q qs] eqn:E.
    + now destruct (re_split_nonempty s).
    + rewrite <- IH. destruct qs; reflexivity.
Qed.

(** X6. The fallback is wider than the exact match: the normalised name
    holds every normalised part of the name, so whenever the normalised
    name is a key of an index the fallback finds an image in that index
    too. *)
Theorem X6_fallback_covers_exact_match (nm : Dict.t string)
    (name f : string) :
  Dict.get nm (normalize name) = Some f ->
  holds_all_parts name (normalize name) /\
  exists g, fallback nm name = Some g.
Proof.
  intros Hget.
  assert (Hall : holds_all_parts name (normalize name)).
  { apply Forall_forall. intros p Hp. apply normalize_substring.
    apply re_split_substring. unfold name_parts in Hp.
    apply filter_In in Hp. tauto. }
  split; [exact Hall|].
  apply get_in in Hget. apply all_parts_in_spec in Hall.
  destruct (find_exists
              (fun kv => all_parts_in (name_parts name) (fst kv)) nm
              (normalize name, f) Hget Hall) as [[k g] Hfind].
  exists g. unfold fallback. now rewrite Hfind.
Qed.

Lemma X6_fallback_covers_exact_match_witness :
  holds_all_parts "John Smith" (normalize "John Smith") /\
  exists g, fallback (norm_map example_listing) "John Smith" = Some g.
Proof.
  apply (X6_fallback_covers_exact_match (norm_map example_listing)
           "John Smith" "John_Smith.png").
  reflexivity.
Defined.

(** X7. A name made only of double quotes, spaces, hyphens and
    apostrophes: each of its parts normalises to the empty string, which
    is in every key.  When neither the name nor an alias is a key and the
    index is not empty, the loop body stores the file name of the first
    key of the index in the record and counts it. *)
Theorem X7_quotes_only_name_takes_first_key (listing : list string)
    (e : json) (name k f : string) (rest : Dict.t string) (st : state) :
  (forall c, In c (list_ascii_of_string name) ->
             c = Str.dquote \/ Str.is_sep c = true) ->
  no_exact_match (norm_map listing) e name ->
  norm_map listing = (k, f) :: rest ->
  stores (norm_map listing) e f st.
Proof.
  intros Hchars Hno Hnm.
  apply (loop_body_found _ _ name).
  rewrite (find_image_fallback _ _ _ Hno). unfold fallback.
  rewrite Hnm. cbn [find fst].
  replace (all_parts_in (name_parts name) k) with true; [reflexivity|].
  symmetry. apply forallb_forall. intros p Hp.
  unfold name_parts in Hp. apply filter_In in Hp. destruct Hp as [Hin _].
  assert (Hempty : normalize p = EmptyString).
  { unfold normalize. rewrite remove_char_all; [reflexivity|].
    intros d Hd.
    destruct (Hchars d (substring_of_chars _ _ _
                          (re_split_substring _ _ Hin) Hd)) as [->|Hsep];
      [reflexivity|].
    rewrite (re_split_no_sep _ _ _ Hin Hd) in Hsep. discriminate. }
  rewrite Hempty. now destruct k.
Qed.

Lemma X7_quotes_only_name_takes_first_key_witness :
  stores (norm_map example_listing)
         (JObj [("name", JStr (String Str.dquote " -"))])
         "John_Smith.png" (mkState 0 []).
Proof.
  apply (X7_quotes_only_name_takes_first_key example_listing
           (JObj [("name", JStr (String Str.dquote " -"))])
           (String Str.dquote " -") "John_Smith"
           "John_Smith.png" [("Jane_Doe", "Jane-Doe.png")] (mkState 0 [])).
  - intros c [<-|[<-|[<-|[]]]]; [now left|now right|now right].
  - split; [reflexivity|]. split; [reflexivity|].
    exists (JArr []), []. repeat split.
  - reflexivity.
Defined.

(** ** The index: lemmas *)

Module IndexFacts.
Import Str StrFacts NormFacts.

Section WithValue.
Context {V : Type}.
Implicit Types (d : Dict.t V) (k : string) (v : V).

(** A store under a new key appends the entry. *)
Lemma set_fresh d k v :
  ~ In k (Dict.keys d) -> Dict.set d k v = (d ++ [(k, v)])%list.
Proof.
  unfold Dict.keys. induction d as [|[k0 v0] d IH]; simpl; [reflexivity|].
  intros H. destruct (k0 =? k)%string eqn:E.
  - apply String.eqb_eq in E. tauto.
  - rewrite IH; tauto.
Qed.

(** A store under a key of the dictionary keeps the keys as they are. *)
Lemma keys_set_present d k v :
  In k (Dict.keys d) -> Dict.keys (Dict.set d k v) = Dict.keys d.
Proof.
  unfold Dict.keys. induction d as [|[k0 v0] d IH]; simpl; [intros []|].
  destruct (k0 =? k)%string eqn:E; simpl.
  - apply String.eqb_eq in E. now subst.
  - intros [->|H]; [now rewrite String.eqb_refl in E|]. now rewrite IH.
Qed.

Lemma in_keys_dec d k : In k (Dict.keys d) \/ ~ In k (Dict.keys d).
Proof.
  destruct (in_dec string_dec k (Dict.keys d)); [now left|now right].
Qed.

Lemma keys_set_nodup d k v :
  NoDup (Dict.keys d) -> NoDup (Dict.keys (Dict.set d k v)).
Proof.
  intros H. destruct (in_keys_dec d k) as [Hin|Hout].
  - now rewrite keys_set_present.
  - rewrite set_fresh by exact Hout. unfold Dict.keys in *.
    rewrite map_app. simpl. apply NoDup_app; [exact H|repeat constructor; intros []|].
    intros x Hx [<-|[]]. contradiction.
Qed.

Lemma keys_comprehension_nodup {X : Type} (key : X -> string)
    (val : X -> V) (xs : list X) :
  NoDup (Dict.keys (Dict.comprehension key val xs)).
Proof.
  unfold Dict.comprehension. induction xs as [|x xs IH] using rev_ind.
  - constructor.
  - rewrite fold_left_app. simpl. now apply keys_set_nodup.
Qed.

(** Without two elements of the same key, a comprehension lists the
    elements in their order. *)
Lemma comprehension_distinct {X : Type} (key : X -> string) (val : X -> V)
    (xs : list X) :
  NoDup (map key xs) ->
  Dict.comprehension key val xs = map (fun x => (key x, val x)) xs.
Proof.
  unfold Dict.comprehension. induction xs as [|x xs IH] using rev_ind.
  - reflexivity.
  - rewrite map_app. simpl. intros H.
    apply NoDup_app_remove_r in H as H'. rewrite fold_left_app. simpl.
    rewrite (IH H'), map_app. simpl. apply set_fresh.
    unfold Dict.keys. rewrite map_map. simpl.
    intros Hin. clear IH H'. 
    induction xs as [|y ys IHy]; simpl in *; [contradiction|].
    inversion H as [|? ? Hy Hys]; subst.
    destruct Hin as [Hin|Hin].
    + apply Hy. rewrite in_app_iff. right. left. congruence.
    + now apply IHy.
Qed.

(** In a dictionary without repeated key, an entry is what the lookup of
    its key returns. *)
Lemma in_get d k v : NoDup (Dict.keys d) -> In (k, v) d -> Dict.get d k = Some v.
Proof.
  unfold Dict.keys. induction d as [|[k0 v0] d IH]; simpl; [intros _ []|].
  intros H Hin. inversion H as [|? ? Hk Hd]; subst.
  destruct Hin as [[= -> ->]|Hin].
  - now rewrite String.eqb_refl.
  - destruct (k0 =? k)%string eqn:E; [|auto].
    apply String.eqb_eq in E. subst k0. exfalso. apply Hk.
    change k with (fst (k, v)). now apply in_map.
Qed.

End WithValue.

Lemma get_pairs {X : Type} (key : X -> string) (xs : list X) (x : X) :
  NoDup (map key xs) -> In x xs ->
  Dict.get (map (fun y => (key y, y)) xs) (key x) = Some x.
Proof.
  induction xs as [|y ys IH]; simpl; [intros _ []|].
  intros H Hin. inversion H as [|? ? Hy Hys]; subst.
  destruct (key y =? key x)%string eqn:E.
  - apply String.eqb_eq in E. destruct Hin as [->|Hin]; [reflexivity|].
    exfalso. apply Hy. rewrite E. now apply in_map.
  - destruct Hin as [->|Hin]; [now rewrite String.eqb_refl in E|].
    now apply IH.
Qed.

Lemma get_pairs_in {X : Type} (key : X -> string) (xs : list X) k (x : X) :
  Dict.get (map (fun y => (key y, y)) xs) k = Some x -> In x xs /\ key x = k.
Proof.
  intros H. apply get_in in H. apply in_map_iff in H.
  destruct H as (y & [= <- <-] & Hy). auto.
Qed.

(** Without two elements of the same key, the lookups do not depend on
    the order of the elements. *)
Lemma get_pairs_perm {X : Type} (key : X -> string) (xs ys : list X) k :
  Permutation xs ys -> NoDup (map key xs) ->
  Dict.get (map (fun y => (key y, y)) xs) k =
  Dict.get (map (fun y => (key y, y)) ys) k.
Proof.
  intros Hp Hx.
  assert (Hy : NoDup (map key ys)).
  { eapply Permutation_NoDup; [|exact Hx]. now apply Permutation_map. }
  destruct (Dict.get (map _ xs) k) as [x|] eqn:Ex.
  - apply get_pairs_in in Ex. destruct Ex as [Hin <-].
    symmetry. apply get_pairs; [exact Hy|].
    eapply Permutation_in; eassumption.
  - destruct (Dict.get (map _ ys) k) as [y|] eqn:Ey; [|reflexivity].
    apply get_pairs_in in Ey. destruct Ey as [Hin <-].
    rewrite get_pairs in Ex; [discriminate|exact Hx|].
    eapply Permutation_in; [apply Permutation_sym|]; eassumption.
Qed.

Lemma image_files_perm l l' :
  Permutation l l' -> Permutation (image_files l) (image_files l').
Proof.
  unfold image_files. induction 1 as [|x l l' _ IH|x y l|l l' l'' _ IH1 _ IH2];
    simpl.
  - constructor.
  - destruct (endswith _ _); [now constructor|exact IH].
  - destruct (endswith (lower x) _), (endswith (lower y) _);
      try reflexivity. apply perm_swap.
  - now transitivity (filter (fun f => endswith (lower f) ".png") l').
Qed.

End IndexFacts.

(** ** File names and their extension: lemmas *)

Module SplitFacts.
Import Str StrFacts NormFacts.

Lemma length_app a b :
  String.length (a ++ b)%string = String.length a + String.length b.
Proof. induction a as [|c a IH]; simpl; [reflexivity|now rewrite IH]. Qed.

Lemma lower_app a b : lower (a ++ b)%string = (lower a ++ lower b)%string.
Proof. induction a as [|c a IH]; simpl; [reflexivity|now rewrite IH]. Qed.

Lemma substring_all b : substring 0 (String.length b) b = b.
Proof. induction b as [|c b IH]; simpl; [reflexivity|now rewrite IH]. Qed.

Lemma substring_prefix a b : substring 0 (String.length a) (a ++ b) = a.
Proof.
  induction a as [|c a IH]; simpl; [now destruct b|now rewrite IH].
Qed.

Lemma substring_suffix a b :
  substring (String.length a) (String.length b) (a ++ b) = b.
Proof. induction a as [|c a IH]; simpl; [apply substring_all|exact IH]. Qed.

Lemma rfind_none c s : rfind c s = None <-> occurs c s = false.
Proof.
  induction s as [|d s IH]; simpl; [tauto|].
  destruct (rfind c s) as [i|].
  - split; [discriminate|]. intros H. apply orb_false_elim in H.
    destruct H as [_ H]. apply IH in H. discriminate.
  - destruct (d =? c)%char; simpl; [split; discriminate|].
    rewrite <- IH. tauto.
Qed.

(** The last occurrence in a concatenation is the last one in the second
    string, if there is one there, and else the last one in the first. *)
Lemma rfind_app c a b :
  rfind c (a ++ b)%string =
  match rfind c b with
  | Some i => Some (String.length a + i)
  | None => rfind c a
  end.
Proof.
  induction a as [|d a IH]; simpl.
  - now destruct (rfind c b).
  - rewrite IH. now destruct (rfind c b).
Qed.

(** Lowering a character neither makes nor unmakes a dot, a slash or a
    character of the class. *)
Lemma lower_char_dot c : (c =? ".")%char = (lower_char c =? ".")%char.
Proof. destruct c as [[] [] [] [] [] [] [] []]; reflexivity. Qed.

Lemma lower_char_slash c : (c =? "/")%char = (lower_char c =? "/")%char.
Proof. destruct c as [[] [] [] [] [] [] [] []]; reflexivity. Qed.

Lemma lower_char_sep c : is_sep c = is_sep (lower_char c).
Proof. destruct c as [[] [] [] [] [] [] [] []]; reflexivity. Qed.

(** What an extension that lowers to [.png] looks like to [splitext]. *)
Lemma png_extension ext :
  lower ext = ".png" ->
  String.length ext = 4 /\ rfind "." ext = Some 0 /\ rfind "/" ext = None /\
  sub_seps ext = ext.
Proof.
  destruct ext as [|c0 [|c1 [|c2 [|c3 [|c4 ext]]]]]; try discriminate.
  simpl. intros [= H0 H1 H2 H3]. split; [reflexivity|].
  rewrite (lower_char_dot c0), (lower_char_dot c1), (lower_char_dot c2),
    (lower_char_dot c3), (lower_char_slash c0), (lower_char_slash c1),
    (lower_char_slash c2), (lower_char_slash c3), (lower_char_sep c0),
    (lower_char_sep c1), (lower_char_sep c2), (lower_char_sep c3),
    H0, H1, H2, H3.
  repeat split.
Qed.

Lemma has_other_no_slash s : has_other "." s = false -> occurs "/" s = false.
Proof.
  induction s as [|c s IH]; simpl; [reflexivity|].
  intros H. apply orb_false_elim in H. destruct H as [Hc Hs].
  apply negb_false_iff, Ascii.eqb_eq in Hc. subst c. simpl. auto.
Qed.

Lemma has_other_no_sep s :
  has_other "." s = false -> sub_seps s = s.
Proof.
  induction s as [|c s IH]; simpl; [reflexivity|].
  intros H. apply orb_false_elim in H. destruct H as [Hc Hs].
  apply negb_false_iff, Ascii.eqb_eq in Hc. subst c. simpl.
  now rewrite IH.
Qed.

(** [splitext] on a name without slash that ends in such an extension. *)
Lemma splitext_png stem ext :
  lower ext = ".png" -> occurs "/" stem = false ->
  splitext (stem ++ ext) =
  if has_other "." stem then (stem, ext)
  else ((stem ++ ext)%string, EmptyString).
Proof.
  intros Hext Hslash.
  destruct (png_extension ext Hext) as (Hlen & Hdot & Hsl & _).
  unfold splitext. rewrite !rfind_app, Hdot, Hsl.
  apply rfind_none in Hslash. rewrite Hslash.
  rewrite Nat.add_0_r, Nat.sub_0_r. cbn [Nat.leb andb].
  rewrite substring_prefix.
  destruct (has_other "." stem); [|reflexivity].
  rewrite length_app, Nat.add_comm, Nat.add_sub, substring_suffix.
  reflexivity.
Qed.

Lemma endswith_png stem ext :
  lower ext = ".png" -> endswith (lower (stem ++ ext)) ".png" = true.
Proof.
  intros Hext. unfold endswith. rewrite lower_app, Hext, length_app.
  cbn [String.length]. rewrite Nat.add_sub.
  replace (4 <=? String.length (lower stem) + 4) with true
    by (symmetry; apply Nat.leb_le; lia).
  change 4 with (String.length ".png") at 1.
  rewrite substring_suffix. reflexivity.
Qed.

Lemma substring_zero_empty d p :
  substring 0 d p = EmptyString -> d = 0 \/ p = EmptyString.
Proof. destruct d, p; simpl; auto; discriminate. Qed.

Lemma substring_none n p : substring n 0 p = EmptyString.
Proof.
  revert p. induction n as [|n IH]; intros [|c p]; simpl; auto.
Qed.

(** The root that [splitext] returns is empty only for the empty path. *)
Lemma splitext_root_nonempty p :
  fst (splitext p) = EmptyString -> p = EmptyString.
Proof.
  unfold splitext. destruct (rfind "." p) as [d|]; [|auto].
  destruct (_ && _) eqn:E; [|auto]. cbn [fst]. intros H.
  apply andb_prop in E. destruct E as [Hle Ho].
  destruct (substring_zero_empty _ _ H) as [-> | ->]; [|reflexivity].
  cbn [Nat.sub] in Ho. rewrite substring_none in Ho. discriminate.
Qed.

Lemma sub_seps_empty s : sub_seps s = EmptyString -> s = EmptyString.
Proof. destruct s; [reflexivity|discriminate]. Qed.

End SplitFacts.

Import IndexFacts SplitFacts.

(** X8. The index is well formed: no key occurs twice; and every entry
    [(k, f)] is returned by the lookup of [k], [f] is a file of the
    listing whose name ends in [.png] in some letter case, [k] is the key
    of [f], is not empty and holds no space, hyphen or apostrophe. *)
Theorem X8_index_invariant (listing : list string) :
  NoDup (Dict.keys (norm_map listing)) /\
  forall k f,
    In (k, f) (norm_map listing) ->
    Dict.get (norm_map listing) k = Some f /\
    In f listing /\ Str.endswith (Str.lower f) ".png" = true /\
    k = file_key f /\ k <> EmptyString /\
    forall c, In c (list_ascii_of_string k) -> Str.is_sep c = false.
Proof.
  assert (Hnd : NoDup (Dict.keys (norm_map listing)))
    by apply keys_comprehension_nodup.
  split; [exact Hnd|]. intros k f Hin.
  split; [now apply in_get|].
  apply comprehension_values in Hin. destruct Hin as (x & Hx & <- & <-).
  unfold image_files in Hx. apply filter_In in Hx. destruct Hx as [Hx Hpng].
  repeat split; trivial.
  - intros Hk. unfold file_key in Hk.
    apply sub_seps_empty, splitext_root_nonempty in Hk. now subst x.
  - intros c. apply sub_seps_no_sep.
Qed.

(** X9. When no two files with the extension have the same key, the
    index lists exactly those files, in the order of the listing, each
    under its key. *)
Theorem X9_index_without_collisions (listing : list string) :
  NoDup (map file_key (image_files listing)) ->
  norm_map listing = map (fun f => (file_key f, f)) (image_files listing).
Proof. intros H. unfold norm_map. now apply comprehension_distinct. Qed.

Lemma X9_index_without_collisions_witness :
  norm_map example_listing =
  map (fun f => (file_key f, f)) (image_files example_listing).
Proof.
  apply (X9_index_without_collisions example_listing).
  vm_compute. repeat constructor; simpl; intuition discriminate.
Defined.

(** X10. When no two files with the extension have the same key, the
    lookups in the index do not depend on the order in which the
    directory is listed. *)
Theorem X10_lookup_independent_of_listing_order (listing listing' : list string)
    (k : string) :
  Permutation listing listing' ->
  NoDup (map file_key (image_files listing)) ->
  Dict.get (norm_map listing) k = Dict.get (norm_map listing') k.
Proof.
  intros Hp Hnd.
  pose proof (image_files_perm _ _ Hp) as Hp'.
  assert (Hnd' : NoDup (map file_key (image_files listing'))).
  { eapply Permutation_NoDup; [|exact Hnd]. now apply Permutation_map. }
  unfold norm_map.
  rewrite (comprehension_distinct _ _ _ Hnd),
    (comprehension_distinct _ _ _ Hnd').
  now apply get_pairs_perm.
Qed.

Lemma X10_lookup_independent_of_listing_order_witness :
  Dict.get (norm_map example_listing) "Jane_Doe" =
  Dict.get (norm_map ["Jane-Doe.png"; "John_Smith.png"]) "Jane_Doe".
Proof.
  apply (X10_lookup_independent_of_listing_order example_listing
           ["Jane-Doe.png"; "John_Smith.png"] "Jane_Doe").
  - apply perm_swap.
  - vm_compute. repeat constructor; simpl; intuition discriminate.
Defined.

(** X11. A file name made of a stem without slash that holds a
    character other than a dot, followed by [.png] in any letter case,
    passes the filter, and its key is the stem with every space, hyphen
    and apostrophe replaced by an underscore. *)
Theorem X11_key_of_png_file (stem ext : string) :
  Str.lower ext = ".png" ->
  Str.occurs "/" stem = false ->
  Str.has_other "." stem = true ->
  Str.endswith (Str.lower (stem ++ ext)) ".png" = true /\
  file_key (stem ++ ext) = Str.sub_seps stem.
Proof.
  intros Hext Hslash Hother. split; [now apply endswith_png|].
  unfold file_key. now rewrite (splitext_png _ _ Hext Hslash), Hother.
Qed.

Lemma X11_key_of_png_file_witness :
  Str.endswith (Str.lower ("Jane O'Doe" ++ ".PnG")) ".png" = true /\
  file_key ("Jane O'Doe" ++ ".PnG") = Str.sub_seps "Jane O'Doe".
Proof.
  apply (X11_key_of_png_file "Jane O'Doe" ".PnG"); reflexivity.
Defined.

(** X12. A file name made of dots only before [.png] (the file named
    [.png] itself among them) passes the filter, and no extension is cut
    off: its key is the whole name. *)
Theorem X12_key_of_dot_file (dots ext : string) :
  Str.lower ext = ".png" ->
  Str.has_other "." dots = false ->
  Str.endswith (Str.lower (dots ++ ext)) ".png" = true /\
  file_key (dots ++ ext) = (dots ++ ext)%string.
Proof.
  intros Hext Hdots. split; [now apply endswith_png|].
  unfold file_key.
  rewrite (splitext_png _ _ Hext (has_other_no_slash _ Hdots)), Hdots.
  cbn [fst]. rewrite sub_seps_app, (has_other_no_sep _ Hdots).
  destruct (png_extension ext Hext) as (_ & _ & _ & ->). reflexivity.
Qed.

Lemma X12_key_of_dot_file_witness :
  Str.endswith (Str.lower (".." ++ ".PNG")) ".png" = true /\
  file_key (".." ++ ".PNG") = (".." ++ ".PNG")%string.
Proof. apply (X12_key_of_dot_file ".." ".PNG"); reflexivity. Defined.

(** X13. A file of the listing whose name does not end in [.png] has no
    influence on the run. *)
Theorem X13_other_files_are_ignored (l1 l2 : list string) (x : string)
    (data : json) :
  Str.endswith (Str.lower x) ".png" = false ->
  run (l1 ++ x :: l2) data = run (l1 ++ l2) data.
Proof.
  intros Hx. unfold run, norm_map, image_files.
  rewrite !filter_app. cbn [filter]. now rewrite Hx.
Qed.

Lemma X13_other_files_are_ignored_witness :
  run (["John_Smith.png"] ++ "notes.txt" :: ["Jane-Doe.png"]) example_data =
  run (["John_Smith.png"] ++ ["Jane-Doe.png"]) example_data.
Proof.
  apply (X13_other_files_are_ignored ["John_Smith.png"] ["Jane-Doe.png"]
           "notes.txt" example_data).
  reflexivity.
Defined.

(** X14. A run never makes up a file name: after a run that ends
    normally, the image field of each record is what it was, or is the
    name of a file of the listing that ends in [.png] in some letter
    case. *)
Theorem X14_images_come_from_the_listing (listing : list string)
    (es : list json) (out : output) :
  run listing (JArr es) = Ok out ->
  exists es',
    written out = JArr es' /\
    Forall2 (fun e e' =>
               field e' "image" = field e "image" \/
               exists f,
                 field e' "image" = Some (JStr f) /\ In f listing /\
                 Str.endswith (Str.lower f) ".png" = true) es es'.
Proof.
  intros Hrun. rewrite (run_outcome _ _ _ Hrun). cbn [written].
  eexists. split; [reflexivity|].
  apply Forall2_map_self. intros e. unfold updated.
  destruct (assigned (norm_map listing) e) as [f|] eqn:E; [|now left].
  right. exists f.
  destruct (assigned_found _ _ _ E) as [name Hfind].
  destruct (find_image_obj _ _ _ Hfind) as [d ->].
  destruct (find_image_in _ _ _ _ Hfind) as [k Hk].
  apply norm_map_values in Hk. destruct Hk as (Hin & _ & _).
  unfold image_files in Hin. apply filter_In in Hin.
  split; [|exact Hin]. cbn [with_image field]. apply get_set_same.
Qed.

Lemma X14_images_come_from_the_listing_witness :
  exists es',
    written example_output = JArr es' /\
    Forall2 (fun e e' =>
               field e' "image" = field e "image" \/
               exists f,
                 field e' "image" = Some (JStr f) /\ In f example_listing /\
                 Str.endswith (Str.lower f) ".png" = true)
            example_records es'.
Proof.
  apply (X14_images_come_from_the_listing example_listing example_records).
  vm_compute. reflexivity.
Defined.

(** ** Exceptions and the loop: lemmas *)

Module ExnFacts.

(** The first record that raises ends the loop with its exception. *)
Lemma main_loop_raises nm pre e post st x :
  Forall (find_ok nm) pre ->
  find_image nm e = Raise x ->
  main_loop nm (pre ++ e :: post) st = Raise x.
Proof.
  intros Hpre He. revert st.
  induction Hpre as [|a pre [r Ha] _ IH]; intros st.
  - cbn [app main_loop]. now rewrite loop_body_spec, He.
  - cbn [app main_loop]. rewrite loop_body_spec, Ha. cbn [bind].
    now rewrite IH.
Qed.

(** Then the run ends with that exception, and writes nothing. *)
Lemma run_raises listing pre e post x :
  Forall (find_ok (norm_map listing)) pre ->
  find_image (norm_map listing) e = Raise x ->
  run listing (JArr (pre ++ e :: post)) = Raise x.
Proof.
  intros Hpre He. unfold run. cbn [py_iter bind].
  now rewrite (main_loop_raises _ _ _ _ _ _ Hpre He).
Qed.

(** A record that raises nothing is stored into or reported, not both. *)
Lemma stored_or_reported nm e :
  find_ok nm e ->
  (if is_assigned nm e then 1 else 0) + List.length (diagnostic nm e) = 1.
Proof.
  intros [[name img] H]. unfold is_assigned, assigned, diagnostic.
  rewrite H. destruct img as [f|]; [|reflexivity].
  cbn [img_truthy]. now destruct (Str.truthy f).
Qed.

Lemma diagnostic_shape nm e line :
  In line (diagnostic nm e) -> exists name, line = no_image_line name.
Proof.
  unfold diagnostic. destruct (find_image nm e) as [[name img]|x]; [|intros []].
  destruct (img_truthy img); [intros []|].
  intros [<-|[]]. eauto.
Qed.

Lemma find_split {A : Type} (q : A -> bool) (l : list A) :
  match find q l with
  | Some x =>
      exists l1 l2, l = (l1 ++ x :: l2)%list /\
                    Forall (fun y => q y = false) l1 /\ q x = true
  | None => Forall (fun y => q y = false) l
  end.
Proof.
  induction l as [|a l IH]; simpl; [constructor|].
  destruct (q a) eqn:E.
  - exists [], l. repeat split; trivial.
  - destruct (find q l) as [x|].
    + destruct IH as (l1 & l2 & -> & H1 & Hx).
      exists (a :: l1), l2. repeat split; trivial. now constructor.
    + now constructor.
Qed.

End ExnFacts.

Import ExnFacts.

(** X15. A record that is not an object, or whose name is present and is
    not a string, ends the run with [AttributeError], provided no record
    before it raises; nothing is written. *)
Theorem X15_bad_record_raises_attribute_error (listing : list string)
    (pre post : list json) (e : json) :
  Forall (find_ok (norm_map listing)) pre ->
  (forall d, e <> JObj d) \/
  (exists v, field e "name" = Some v /\ is_str v = false) ->
  run listing (JArr (pre ++ e :: post)) = Raise AttributeError.
Proof.
  intros Hpre He. apply run_raises; [exact Hpre|].
  destruct He as [He|(v & Hv & Hs)].
  - destruct e; try reflexivity. now destruct (He fields).
  - destruct e; try discriminate. unfold find_image, py_get.
    cbn [field] in Hv. rewrite Hv. cbn [bind].
    destruct v; try reflexivity. discriminate.
Qed.

Lemma X15_bad_record_raises_attribute_error_witness :
  run example_listing
      (JArr ([JObj [("name", JStr "John Smith")]] ++
             JObj [("name", JNull)] :: [JObj [("name", JStr "Jane")]])) =
  Raise AttributeError.
Proof.
  apply (X15_bad_record_raises_attribute_error example_listing
           [JObj [("name", JStr "John Smith")]]
           [JObj [("name", JStr "Jane")]] (JObj [("name", JNull)])).
  - repeat constructor. eexists. vm_compute. reflexivity.
  - right. exists JNull. split; reflexivity.
Defined.

(** X16. A record whose normalised name is not a key and whose aliases
    field is null, a boolean or a number ends the run with [TypeError],
    provided no record before it raises. *)
Theorem X16_aliases_not_iterable_raises_type_error (listing : list string)
    (pre post : list json) (e : json) (name : string) (aliases : json) :
  Forall (find_ok (norm_map listing)) pre ->
  py_get e "name" (JStr "") = Ok (JStr name) ->
  Dict.get (norm_map listing) (normalize name) = None ->
  field e "aliases" = Some aliases ->
  (aliases = JNull \/ (exists b, aliases = JBool b) \/
   exists n, aliases = JNum n) ->
  run listing (JArr (pre ++ e :: post)) = Raise TypeError.
Proof.
  intros Hpre Hn Hnone Ha Hkind. apply run_raises; [exact Hpre|].
  destruct e as [| | | | |d]; try discriminate.
  unfold find_image. rewrite Hn. cbn [bind call_normalize].
  rewrite Hnone. unfold py_get. cbn [field] in Ha. rewrite Ha. cbn [bind].
  destruct Hkind as [->|[[b ->]|[n ->]]]; reflexivity.
Qed.

Lemma X16_aliases_not_iterable_raises_type_error_witness :
  run example_listing
      (JArr ([] ++ JObj [("name", JStr "Nobody"); ("aliases", JNull)] :: [])) =
  Raise TypeError.
Proof.
  apply (X16_aliases_not_iterable_raises_type_error example_listing [] []
           (JObj [("name", JStr "Nobody"); ("aliases", JNull)])
           "Nobody" JNull).
  - constructor.
  - reflexivity.
  - reflexivity.
  - reflexivity.
  - now left.
Defined.

(** X17. A record whose normalised name is not a key and whose aliases
    hold a value that is not a string, before any alias that is a key,
    ends the run with [AttributeError], provided no record before it
    raises. *)
Theorem X17_alias_not_a_string_raises_attribute_error
    (listing : list string) (pre post : list json) (e : json)
    (name : string) (aliases : json) (before : list string) (v : json)
    (after : list json) :
  Forall (find_ok (norm_map listing)) pre ->
  py_get e "name" (JStr "") = Ok (JStr name) ->
  Dict.get (norm_map listing) (normalize name) = None ->
  py_get e "aliases" (JArr []) = Ok aliases ->
  py_iter aliases = Ok (map JStr before ++ v :: after)%list ->
  Forall (fun b => Dict.get (norm_map listing) (normalize b) = None) before ->
  is_str v = false ->
  run listing (JArr (pre ++ e :: post)) = Raise AttributeError.
Proof.
  intros Hpre Hn Hnone Ha Hl Hb Hv. apply run_raises; [exact Hpre|].
  rewrite (find_image_by_alias _ _ _ _ _ Hn Hnone Ha Hl).
  replace (alias_loop (norm_map listing) (map JStr before ++ v :: after))
    with (@Raise (option string) AttributeError); [reflexivity|].
  clear Hl. induction Hb as [|b before Hb _ IH]; simpl.
  - destruct v; try reflexivity. discriminate.
  - now rewrite Hb.
Qed.

Lemma X17_alias_not_a_string_raises_attribute_error_witness :
  run example_listing
      (JArr ([] ++ JObj [("name", JStr "Nobody");
                         ("aliases", JArr [JStr "N."; JNum "7"])] :: [])) =
  Raise AttributeError.
Proof.
  apply (X17_alias_not_a_string_raises_attribute_error example_listing [] []
           (JObj [("name", JStr "Nobody");
                  ("aliases", JArr [JStr "N."; JNum "7"])])
           "Nobody" (JArr [JStr "N."; JNum "7"]) ["N."] (JNum "7") []).
  - constructor.
  - reflexivity.
  - reflexivity.
  - reflexivity.
  - reflexivity.
  - repeat constructor.
  - reflexivity.
Defined.

(** X18. A document that is not a list.  An empty object or an empty
    string is written back as it is and the summary counts nothing; an
    object with a field or a string with a character raises
    [AttributeError] (the loop runs over keys or characters, which have no
    [get]); null, a boolean or a number raises [TypeError]. *)
Theorem X18_document_that_is_not_a_list (listing : list string) :
  run listing (JObj []) = Ok (mkOutput (JObj []) ["Updated 0 entries"]) /\
  run listing (JStr "") = Ok (mkOutput (JStr "") ["Updated 0 entries"]) /\
  (forall k v d, run listing (JObj ((k, v) :: d)) = Raise AttributeError) /\
  (forall c s, run listing (JStr (String c s)) = Raise AttributeError) /\
  run listing JNull = Raise TypeError /\
  (forall b, run listing (JBool b) = Raise TypeError) /\
  (forall n, run listing (JNum n) = Raise TypeError).
Proof. repeat split. Qed.

(** X19. Every record is stored into or reported, never both: after a
    run that ends normally the console holds one line per record that
    got no image, each of the form [No image found for ...], then the
    summary; and the number in the summary plus the number of those lines
    is the number of records. *)
Theorem X19_stored_plus_reported_is_all (listing : list string)
    (es : list json) (out : output) :
  run listing (JArr es) = Ok out ->
  exists lines n,
    console out = (lines ++ [summary n])%list /\
    n + List.length lines = List.length es /\
    Forall (fun line => exists name, line = no_image_line name) lines.
Proof.
  intros Hrun. pose proof (run_records_ok _ _ _ Hrun) as Hok.
  rewrite (run_outcome _ _ _ Hrun). cbn [console].
  exists (flat_map (diagnostic (norm_map listing)) es),
         (set_count (norm_map listing) es).
  split; [reflexivity|]. split.
  - unfold set_count. clear Hrun.
    induction Hok as [|e es He _ IH]; [reflexivity|].
    cbn [filter flat_map]. rewrite List.length_app.
    pose proof (stored_or_reported _ _ He) as H1.
    destruct (is_assigned (norm_map listing) e); cbn [List.length] in *; lia.
  - apply Forall_forall. intros line Hin. apply in_flat_map in Hin.
    destruct Hin as (e & _ & He). exact (diagnostic_shape _ _ _ He).
Qed.

Lemma X19_stored_plus_reported_is_all_witness :
  exists lines n,
    console example_output = (lines ++ [summary n])%list /\
    n + List.length lines = List.length example_records /\
    Forall (fun line => exists name, line = no_image_line name) lines.
Proof.
  apply (X19_stored_plus_reported_is_all example_listing example_records).
  vm_compute. reflexivity.
Defined.

(** X20. The loop over a list in two pieces is the loop over the first
    piece followed by the loop over the second from the state the first
    left, also when one of them raises. *)
Theorem X20_loop_over_concatenation (nm : Dict.t string)
    (es1 es2 : list json) (st : state) :
  main_loop nm (es1 ++ es2) st =
  ('(a1, st1) <- main_loop nm es1 st ;;
   '(a2, st2) <- main_loop nm es2 st1 ;;
   Ok ((a1 ++ a2)%list, st2)).
Proof.
  revert st. induction es1 as [|e es1 IH]; intros st.
  - cbn [app main_loop bind].
    now destruct (main_loop nm es2 st) as [[a2 st2]|x].
  - cbn [app main_loop].
    destruct (loop_body nm e st) as [[e' st']|x]; [|reflexivity].
    cbn [bind]. rewrite IH.
    destruct (main_loop nm es1 st') as [[a1 st1]|x]; [|reflexivity].
    cbn [bind].
    now destruct (main_loop nm es2 st1) as [[a2 st2]|x].
Qed.

(** X21. The loop body reads the name and the aliases of a record and
    nothing else: on two records with the same name and aliases fields it
    raises the same exception, or leaves the same count and console and
    either leaves both records alone or stores the same file in both. *)
Theorem X21_only_name_and_aliases_are_read (nm : Dict.t string)
    (d1 d2 : Dict.t json) (st : state) :
  Dict.get d1 "name" = Dict.get d2 "name" ->
  Dict.get d1 "aliases" = Dict.get d2 "aliases" ->
  match loop_body nm (JObj d1) st with
  | Ok (e1', st') =>
      exists e2',
        loop_body nm (JObj d2) st = Ok (e2', st') /\
        ((e1' = JObj d1 /\ e2' = JObj d2) \/
         exists f, e1' = with_image (JObj d1) f /\
                   e2' = with_image (JObj d2) f)
  | Raise x => loop_body nm (JObj d2) st = Raise x
  end.
Proof.
  intros Hn Ha.
  assert (Hfind : find_image nm (JObj d1) = find_image nm (JObj d2)).
  { unfold find_image, py_get. now rewrite Hn, Ha. }
  rewrite !loop_body_spec. rewrite <- Hfind.
  unfold is_assigned, diagnostic, updated, assigned. rewrite <- Hfind.
  destruct (find_image nm (JObj d1)) as [[name [f|]]|x]; [| |reflexivity].
  - destruct (Str.truthy f).
    + eexists. split; [reflexivity|]. right. now exists f.
    + eexists. split; [reflexivity|]. now left.
  - eexists. split; [reflexivity|]. now left.
Qed.

Lemma X21_only_name_and_aliases_are_read_witness :
  match loop_body (norm_map example_listing)
          (JObj [("name", JStr "John Smith")]) (mkState 0 []) with
  | Ok (e1', st') =>
      exists e2',
        loop_body (norm_map example_listing)
          (JObj [("image", JStr "old.png"); ("name", JStr "John Smith");
                 ("party", JStr "X")]) (mkState 0 []) = Ok (e2', st') /\
        ((e1' = JObj [("name", JStr "John Smith")] /\
          e2' = JObj [("image", JStr "old.png"); ("name", JStr "John Smith");
                      ("party", JStr "X")]) \/
         exists f,
           e1' = with_image (JObj [("name", JStr "John Smith")]) f /\
           e2' = with_image
                   (JObj [("image", JStr "old.png");
                          ("name", JStr "John Smith"); ("party", JStr "X")])
                   f)
  | Raise x =>
      loop_body (norm_map example_listing)
        (JObj [("image", JStr "old.png"); ("name", JStr "John Smith");
               ("party", JStr "X")]) (mkState 0 []) = Raise x
  end.
Proof.
  apply (X21_only_name_and_aliases_are_read (norm_map example_listing)
           [("name", JStr "John Smith")]
           [("image", JStr "old.png"); ("name", JStr "John Smith");
            ("party", JStr "X")] (mkState 0 [])); reflexivity.
Defined.

(** X22. The loop body keeps the fields of a record in their order: it
    leaves them as they are, or replaces the value of an image field
    where that field stands, or, when there is none, adds the image as
    the last field. *)
Theorem X22_field_order_is_kept (nm : Dict.t string) (d : Dict.t json)
    (st : state) (e' : json) (st' : state) :
  loop_body nm (JObj d) st = Ok (e', st') ->
  exists d',
    e' = JObj d' /\
    (d' = d \/
     (In "image" (Dict.keys d) /\ Dict.keys d' = Dict.keys d) \/
     exists f, ~ In "image" (Dict.keys d) /\
               d' = (d ++ [("image", JStr f)])%list).
Proof.
  rewrite loop_body_spec.
  destruct (find_image nm (JObj d)) as [r|x]; [|discriminate].
  intros [= <- _]. unfold updated.
  destruct (assigned nm (JObj d)) as [f|]; [|eauto].
  cbn [with_image]. eexists. split; [reflexivity|]. right.
  destruct (in_keys_dec d "image") as [Hin|Hout].
  - left. split; [exact Hin|]. now apply keys_set_present.
  - right. exists f. split; [exact Hout|]. now apply set_fresh.
Qed.

Lemma X22_field_order_is_kept_witness :
  exists d',
    JObj [("image", JStr "John_Smith.png"); ("name", JStr "John Smith")]
      = JObj d' /\
    (d' = [("image", JStr "old.png"); ("name", JStr "John Smith")] \/
     (In "image"
         (Dict.keys [("image", JStr "old.png"); ("name", JStr "John Smith")]) /\
      Dict.keys d' =
      Dict.keys [("image", JStr "old.png"); ("name", JStr "John Smith")]) \/
     exists f,
       ~ In "image"
            (Dict.keys [("image", JStr "old.png");
                        ("name", JStr "John Smith")]) /\
       d' = ([("image", JStr "old.png"); ("name", JStr "John Smith")] ++
             [("image", JStr f)])%list).
Proof.
  apply (X22_field_order_is_kept (norm_map example_listing)
           [("image", JStr "old.png"); ("name", JStr "John Smith")]
           (mkState 0 []) _ (mkState 1 [])).
  reflexivity.
Defined.

(** X23. Records do not influence each other: after a run that ends
    normally, each record is what a run on that record alone writes. *)
Theorem X23_records_are_independent (listing : list string)
    (es : list json) (out : output) (i : nat) (e : json) :
  run listing (JArr es) = Ok out ->
  nth_error es i = Some e ->
  exists e' lines es',
    run listing (JArr [e]) = Ok (mkOutput (JArr [e']) lines) /\
    written out = JArr es' /\ nth_error es' i = Some e'.
Proof.
  intros Hrun Hi. pose proof (run_records_ok _ _ _ Hrun) as Hok.
  assert (He : find_ok (norm_map listing) e).
  { rewrite Forall_forall in Hok. eapply Hok, nth_error_In, Hi. }
  rewrite (run_outcome _ _ _ Hrun). cbn [written].
  exists (updated (norm_map listing) e). eexists. eexists.
  split; [|split; [reflexivity|]].
  - rewrite run_records by (constructor; [exact He|constructor]).
    reflexivity.
  - now rewrite nth_error_map, Hi.
Qed.

Lemma X23_records_are_independent_witness :
  exists e' lines es',
    run example_listing
        (JArr [JObj [("name", JStr "Jane O'Doe");
                     ("aliases", JArr [JStr "Jane Doe"])]])
      = Ok (mkOutput (JArr [e']) lines) /\
    written example_output = JArr es' /\ nth_error es' 1 = Some e'.
Proof.
  apply (X23_records_are_independent example_listing example_records
           example_output 1).
  - vm_compute. reflexivity.
  - reflexivity.
Defined.

(** X25. What the fallback returns: a file name [f] only if the index
    splits at an entry [(k, f)] whose key holds every normalised part of
    the name while no key before it does; and nothing only if no key of
    the index holds every part. *)
Theorem X25_fallback_is_first_key_holding_all_parts (nm : Dict.t string)
    (name : string) :
  match fallback nm name with
  | Some f =>
      exists kvs1 k kvs2,
        nm = (kvs1 ++ (k, f) :: kvs2)%list /\
        Forall (fun kv => ~ holds_all_parts name (fst kv)) kvs1 /\
        holds_all_parts name k
  | None => Forall (fun kv => ~ holds_all_parts name (fst kv)) nm
  end.
Proof.
  unfold fallback.
  pose proof (find_split
                (fun kv => all_parts_in (name_parts name) (fst kv)) nm) as H.
  assert (Hneg : forall l : Dict.t string,
    Forall (fun y => all_parts_in (name_parts name) (fst y) = false) l ->
    Forall (fun kv => ~ holds_all_parts name (fst kv)) l).
  { intros l Hl. eapply Forall_impl; [|exact Hl]. intros kv Hkv Hh.
    apply all_parts_in_spec in Hh. congruence. }
  destruct (find _ nm) as [[k f]|].
  - destruct H as (l1 & l2 & -> & H1 & Hk).
    exists l1, k, l2. repeat split; auto. now apply all_parts_in_spec.
  - auto.
Qed.

(** X26. [normalize] changes nothing else: a string without double
    quote, space, hyphen and apostrophe is its own normalisation, letter
    case included. *)
Theorem X26_normalize_keeps_clean_strings (s : string) :
  (forall c, In c (list_ascii_of_string s) ->
             c <> Str.dquote /\ Str.is_sep c = false) ->
  normalize s = s.
Proof.
  intros H. unfold normalize. rewrite remove_char_absent.
  - apply sub_seps_fixed. intros c Hc. now apply H.
  - destruct (Str.occurs Str.dquote s) eqn:E; [|reflexivity].
    apply occurs_in in E. now destruct (H _ E).
Qed.

Lemma X26_normalize_keeps_clean_strings_witness :
  normalize "John_Smith" = "John_Smith".
Proof.
  apply (X26_normalize_keeps_clean_strings "John_Smith").
  intros c Hc. simpl in Hc.
  repeat (destruct Hc as [<-|Hc]; [split; [discriminate|reflexivity]|]).
  destruct Hc.
Defined.
